(** * pptx.oxml.autoshape: custom element classes for shape XML

    A shallow embedding of [pptx/oxml/autoshape.py] and of the part of the
    lxml API it calls, followed by the properties of the shape model that
    were checked against it.

    An lxml element is a tree node with a qualified tag, an attribute list
    and an ordered list of children.  Character data is left out: none of
    the embedded methods reads or writes it.  A method that mutates [self]
    in place takes the element and returns the element after the call; a
    reference to a child, as a Python caller holds it, is the position of
    the child in the child list of its parent. *)

From Stdlib Require Import Ascii.
From stdpp Require Import base tactics option list strings numbers pretty sorting.

Open Scope string_scope.
Open Scope list_scope.
Open Scope nat_scope.

(** ** Python exceptions *)

Inductive exn := AttributeError | ValueError | XMLSyntaxError.

Inductive result (A : Type) :=
  | Ok (a : A)
  | Raise (e : exn).
Arguments Ok {A} a.
Arguments Raise {A} e.

#[global] Instance result_ret : MRet result := @Ok.
#[global] Instance result_bind : MBind result := λ A B f m,
  match m with Ok a => f a | Raise e => Raise e end.

(** ** Elements *)

(** A tag in Clark notation, [{namespace}localname], kept as its two parts;
    an element outside any namespace has the empty namespace. *)
Record QName := { namespace : string; localname : string }.

#[global] Instance QName_eq_dec : EqDecision QName.
Proof. solve_decision. Defined.

#[warnings="-register-all"] Inductive element := Node {
  tag : QName;
  attrib : list (string * string);
  children : list element
}.

(** ** lxml.etree *)
Module etree.

(** [self.find(tag)] with a plain tag: the first direct child so named. *)
Definition find (t : QName) (self : element) : option nat :=
  fst <$> list_find (λ c, tag c = t) (children self).

(** [self[i]] *)
Definition getitem (i : nat) (self : element) : option element :=
  children self !! i.

(** [self.remove(element)], [element] being the child at position [i]. *)
Definition remove (i : nat) (self : element) : element :=
  Node (tag self) (attrib self) (delete i (children self)).

(** [self.append(element)] *)
Definition append (x : element) (self : element) : element :=
  Node (tag self) (attrib self) (children self ++ [x]).

(** [successor.addprevious(element)], [successor] being the child of
    [self] at position [i]: the new sibling takes position [i]. *)
Definition addprevious (i : nat) (x : element) (self : element) : element :=
  Node (tag self) (attrib self)
       (take i (children self) ++ x :: drop i (children self)).

(** [self.get(key)] *)
Definition get (key : string) (self : element) : option string :=
  (snd ∘ snd) <$> list_find (λ kv, kv.1 = key) (attrib self).

Fixpoint set_item (key value : string) (d : list (string * string))
  : list (string * string) :=
  match d with
  | [] => [(key, value)]
  | (k, v) :: d =>
      if decide (k = key) then (k, value) :: d
      else (k, v) :: set_item key value d
  end.

(** [self.set(key, value)] *)
Definition set (key value : string) (self : element) : element :=
  Node (tag self) (set_item key value (attrib self)) (children self).

(** The write-back of a child mutated in place: the child at position [i]
    becomes [f] of itself. *)
Definition at_child (i : nat) (f : element → element) (self : element)
  : element :=
  Node (tag self) (attrib self) (alter f i (children self)).

End etree.

(** ** lxml.objectify *)
Module objectify.

(** The name [name] looked up as a child of [self]: the namespace is
    inherited from [self]. *)
Definition child_tag (name : string) (self : element) : QName :=
  {| namespace := namespace (tag self); localname := name |}.

(** [self.name], as a position; [None] stands for AttributeError. *)
Definition lookup (name : string) (self : element) : option nat :=
  etree.find (child_tag name self) self.

(** [self.name], as a reference *)
Definition getref (name : string) (self : element) : result nat :=
  match lookup name self with
  | Some i => Ok i
  | None => Raise AttributeError
  end.

(** [self.name] *)
Definition getattr (name : string) (self : element) : result element :=
  match lookup name self ≫= λ i, etree.getitem i self with
  | Some c => Ok c
  | None => Raise AttributeError
  end.

(** [self.__getattr__(name)], which Python calls when the regular
    attribute lookup has raised AttributeError: the child named [name],
    an element where a getter would have given a value of [A]. *)
Definition fallback {A} (name : string) (self : element)
  : result (A + element) :=
  c ← getattr name self; Ok (inr c).

(** [self.name] where the class of [self] defines [name] as a property
    with the getter [fget].  The getter runs first; an AttributeError it
    raises is an AttributeError of the attribute lookup, so Python goes
    on to [__getattr__] and the read gives the child named after the
    property, or raises AttributeError when there is no such child. *)
Definition getproperty {A} (name : string) (fget : element → result A)
    (self : element) : result (A + element) :=
  match fget self with
  | Ok value => Ok (inl value)
  | Raise AttributeError => fallback name self
  | Raise e => Raise e
  end.

(** [self[tag]] with a qualified tag for key *)
Definition getitem (t : QName) (self : element) : result nat :=
  match etree.find t self with
  | Some i => Ok i
  | None => Raise AttributeError
  end.

(** A statement that works on [self.name] in place: [body] runs on the
    child and the child it leaves takes its place in [self]. *)
Definition with_attr (name : string) (body : element → result element)
    (self : element) : result element :=
  i ← getref name self;
  c ← getattr name self;
  c ← body c;
  Ok (etree.at_child i (λ _, c) self).

(** The same for [self[tag]]. *)
Definition with_item (t : QName) (body : element → result element)
    (self : element) : result element :=
  i ← getitem t self;
  match etree.getitem i self with
  | Some c => c ← body c; Ok (etree.at_child i (λ _, c) self)
  | None => Raise AttributeError
  end.

Definition PYTYPE_ATTRIBUTE : string :=
  "{http://codespeak.net/lxml/objectify/pytype}pytype".
Definition XML_SCHEMA_INSTANCE_TYPE_ATTR : string :=
  "{http://www.w3.org/2001/XMLSchema-instance}type".

(** [deannotate(element, cleanup_namespaces=True)]: the [py:pytype] and
    [xsi:type] annotations are dropped from the whole tree. *)
Fixpoint deannotate (e : element) : element :=
  Node (tag e)
       (filter (λ kv, kv.1 ≠ PYTYPE_ATTRIBUTE
                      ∧ kv.1 ≠ XML_SCHEMA_INSTANCE_TYPE_ATTR) (attrib e))
       (map deannotate (children e)).

(** [for e in first: ...] for a child [first] of [parent]: [first] and
    its later siblings with the same tag. *)
Definition iter (first parent : element) : list element :=
  filter (λ c, tag c = tag first) (children parent).

(** [hasattr(self, name)] *)
Definition hasattr (name : string) (self : element) : bool :=
  bool_decide (is_Some (lookup name self)).

(** The positions of [self.name[:]]: the first child so named and every
    later sibling with the same tag, in document order. *)
Fixpoint positions (t : QName) (i : nat) (l : list element) : list nat :=
  match l with
  | [] => []
  | c :: l =>
      if decide (tag c = t) then i :: positions t (S i) l
      else positions t (S i) l
  end.

Definition siblings (name : string) (self : element) : list nat :=
  positions (child_tag name self) 0 (children self).

End objectify.

(** ** Characters of the templates *)

(** The line feed and the double quote of the Python string literals. *)
Definition nl : string := String (ascii_of_nat 10) "".
Definition dq : string := String (ascii_of_nat 34) "".

(** An attribute value between its double quotes. *)
Definition quoted (value : string) : string := dq +:+ value +:+ dq.

(** ** What the module imports from the rest of python-pptx

    [pptx.oxml], [pptx.oxml.ns], [pptx.oxml.text] and [pptx.spec] are not
    part of this development; their names are taken as given. *)
Class Imports := {
  (** [pptx.oxml.ns.nsmap]: namespace prefix to namespace URI *)
  nsmap : string → string;
  (** [pptx.oxml.ns.nsdecls] *)
  nsdecls : list string → string;
  (** [pptx.oxml.parse_xml_bytes] *)
  parse_xml_bytes : string → result element;
  (** [pptx.oxml.text.CT_TextBody.new_txBody()] *)
  new_txBody : element;
  (** [pptx.spec] *)
  PH_ORIENT_HORZ : string;
  PH_SZ_FULL : string;
  PH_TYPE_BODY : string;
  PH_TYPE_CTRTITLE : string;
  PH_TYPE_OBJ : string;
  PH_TYPE_SUBTITLE : string;
  PH_TYPE_TITLE : string
}.

(** ** pptx.oxml.ns *)
Module ns.
Section ns.
Context `{!Imports}.

(** [tag.split(':')] on a prefixed name with one colon *)
Fixpoint split_colon (s : string) : string * string :=
  match s with
  | EmptyString => ("", "")
  | String c s =>
      if Ascii.eqb c ":"%char then ("", s)
      else let '(prefix, tagroot) := split_colon s in
           (String c prefix, tagroot)
  end.

(** Modelled from the spec: [qn] of [pptx.oxml.ns] is not among the
    sources.  It turns a prefixed name such as ['a:solidFill'] into the
    qualified tag lxml uses, the prefix [a:] standing for the drawing
    namespace and [p:] for the presentation namespace (section 6). *)
Definition qn (t : string) : QName :=
  let '(prefix, tagroot) := split_colon t in
  {| namespace := nsmap prefix; localname := tagroot |}.

End ns.
End ns.

(** ** pptx.oxml.core *)
Module core.
Section core.
Context `{!Imports}.

(** Modelled from the spec: [Element] of [pptx.oxml.core] is not among
    the sources.  A new element with the qualified tag, no attribute and
    no child ("a new, empty solid-fill element", section 4.2). *)
Definition Element (t : string) : element := Node (ns.qn t) [] [].

(** Modelled from the spec: [SubElement] of [pptx.oxml.core] is not among
    the sources.  A new empty element appended to [parent] as its last
    child (section 4.1: the guide-list container is created as a child of
    the geometry element); the result is the reference to the new child
    and the parent after the call. *)
Definition SubElement (t : string) (parent : element) : nat * element :=
  (length (children parent), etree.append (Element t) parent).

(** Modelled from the spec: [child] of [pptx.oxml.core] is not among the
    sources.  The first direct child of [element] with the prefixed name,
    or [None] when there is none (section 4.4: "a preset-geometry element
    is present"). *)
Definition child (e : element) (child_tagname : string) : option element :=
  etree.find (ns.qn child_tagname) e ≫= λ i, etree.getitem i e.

End core.
End core.

(** ** class CT_ShapeProperties: the [<p:spPr>] element *)
Module CT_ShapeProperties.
Section CT_ShapeProperties.
Context `{!Imports}.

(** The [<a:solidFill>] child element, or [None] if not present. *)
Definition solidFill (self : element) : option nat :=
  etree.find (ns.qn "a:solidFill") self.

(** Return the first child with tag in [successor_tagnames], or [None]
    if not found. *)
Fixpoint _first_successor_in (successor_tagnames : list string)
    (self : element) : option nat :=
  match successor_tagnames with
  | [] => None
  | tagname :: successor_tagnames =>
      match etree.find (ns.qn tagname) self with
      | Some successor => Some successor
      | None => _first_successor_in successor_tagnames self
      end
  end.

Fixpoint _remove_if_present (tagnames : list string) (self : element)
  : element :=
  match tagnames with
  | [] => self
  | tagname :: tagnames =>
      _remove_if_present tagnames
        match etree.find (ns.qn tagname) self with
        | Some element => etree.remove element self
        | None => self
        end
  end.

(** Return a newly added [<a:solidFill>] child element. *)
Definition _add_solidFill (self : element) : nat * element :=
  let solidFill := core.Element "a:solidFill" in
  let successor :=
    _first_successor_in
      ["a:ln"; "a:effectLst"; "a:effectDag"; "a:scene3d"; "a:sp3d";
       "a:extLst"] self in
  match successor with
  | Some successor => (successor, etree.addprevious successor solidFill self)
  | None => (length (children self), etree.append solidFill self)
  end.

(** Return the [<a:solidFill>] child element, replacing any other fill
    element if found, e.g. a [<a:gradFill>] element. *)
Definition get_or_change_to_solidFill (self : element) : nat * element :=
  match solidFill self with
  | Some solidFill => (solidFill, self)
  | None =>
      _add_solidFill
        (_remove_if_present
           ["a:noFill"; "a:gradFill"; "a:blipFill"; "a:pattFill";
            "a:grpFill"] self)
  end.

End CT_ShapeProperties.
End CT_ShapeProperties.

(** ** class CT_PresetGeometry2D: the [<a:prstGeom>] element *)
Module CT_PresetGeometry2D.
Section CT_PresetGeometry2D.
Context `{!Imports}.

(** Sequence containing the [gd] element children of the [<a:avLst>]
    child element, empty if none are present. *)
Definition gd (self : element) : result (list element) :=
  match
    avLst ← objectify.getattr "avLst" self;
    first_gd ← objectify.getattr "gd" avLst;
    Ok (objectify.iter first_gd avLst)
  with
  | Raise AttributeError => Ok []
  | gd_elms => gd_elms
  end.

(** Value of required [prst] attribute. *)
Definition prst (self : element) : option string := etree.get "prst" self.

(** [for gd_elm in gd_elms: avLst.remove(gd_elm)].  The loop runs over a
    copy of the sibling list, whose members are held by identity: once
    [removed] earlier siblings are gone, the element that stood at
    position [gd_elm] when the copy was taken stands [removed] places
    to the left. *)
Fixpoint remove_each (gd_elms : list nat) (removed : nat) (avLst : element)
  : element :=
  match gd_elms with
  | [] => avLst
  | gd_elm :: gd_elms =>
      remove_each gd_elms (S removed) (etree.remove (gd_elm - removed) avLst)
  end.

(** Remove any [<a:gd>] element children of [<a:avLst>] and replace them
    with ones having (name, val) in [guides].  The result is the element
    after a call that returns; a call that raises gives the exception
    only, and what it did to [self] before raising (the [<a:avLst>] of
    the [except] branch is appended by then) is not part of the
    result. *)
Definition rewrite_guides (guides : list (string * Z)) (self : element)
  : result element :=
  (* try: avLst = self.avLst
     except AttributeError: avLst = SubElement(self, 'a:avLst') *)
  let '(avLst, self) :=
    match objectify.lookup "avLst" self with
    | Some avLst => (avLst, self)
    | None => core.SubElement "a:avLst" self
    end in
  (* if hasattr(self.avLst, 'gd'):
         for gd_elm in self.avLst.gd[:]: avLst.remove(gd_elm)
     [self.avLst] is looked up anew; [avLst.remove] refuses an element
     that is not a child of [avLst] *)
  self_avLst ← objectify.getref "avLst" self;
  self_avLst_elm ← objectify.getattr "avLst" self;
  self ←
    (if objectify.hasattr "gd" self_avLst_elm then
       let gd_elms := objectify.siblings "gd" self_avLst_elm in
       if decide (avLst = self_avLst) then
         Ok (etree.at_child avLst (remove_each gd_elms 0) self)
       else Raise ValueError
     else Ok self);
  (* for name, val in guides:
         gd = SubElement(avLst, 'a:gd')
         gd.set('name', name); gd.set('fmla', 'val %d' % val) *)
  Ok (foldl
        (λ self '(name, val),
           etree.at_child avLst
             (λ avLst,
                let '(gd, avLst) := core.SubElement "a:gd" avLst in
                let avLst := etree.at_child gd (etree.set "name" name) avLst in
                etree.at_child gd
                  (etree.set "fmla" ("val " +:+ pretty val)) avLst)
             self)
        self guides).

End CT_PresetGeometry2D.
End CT_PresetGeometry2D.

(** ** class CT_Shape: the [<p:sp>] element *)
Module CT_Shape.
Section CT_Shape.
Context `{!Imports}.

(** [_ph_sp_tmpl % (id_, name)]: [id_] goes through [%d], [name] is copied
    as it is. *)
Definition _ph_sp_tmpl (id_ : Z) (name : string) : string :=
  "<p:sp " +:+ nsdecls ["a"; "p"] +:+ ">" +:+ nl +:+
  "  <p:nvSpPr>" +:+ nl +:+
  "    <p:cNvPr id=" +:+ dq +:+ pretty id_ +:+ dq +:+
              " name=" +:+ dq +:+ name +:+ dq +:+ "/>" +:+ nl +:+
  "    <p:cNvSpPr/>" +:+ nl +:+
  "    <p:nvPr/>" +:+ nl +:+
  "  </p:nvSpPr>" +:+ nl +:+
  "  <p:spPr/>" +:+ nl +:+
  "</p:sp>".

(** The element tree the text of [_ph_sp_tmpl] denotes; it is what the
    parser returns for it as long as [name] holds no markup. *)
Definition _ph_sp_tree (id_ : Z) (name : string) : element :=
  Node (ns.qn "p:sp") []
    [ Node (ns.qn "p:nvSpPr") []
        [ Node (ns.qn "p:cNvPr") [("id", pretty id_); ("name", name)] [];
          Node (ns.qn "p:cNvSpPr") [] [];
          Node (ns.qn "p:nvPr") [] [] ];
      Node (ns.qn "p:spPr") [] [] ].

(** [_autoshape_sp_tmpl % (id_, name, left, top, width, height, prst)]:
    the numbers go through [%d], [name] and [prst] are copied as they
    are. *)
Definition _autoshape_sp_tmpl (id_ : Z) (name : string)
    (left top width height : Z) (prst : string) : string :=
  "<p:sp " +:+ nsdecls ["a"; "p"] +:+ ">" +:+ nl +:+
  "  <p:nvSpPr>" +:+ nl +:+
  "    <p:cNvPr id=" +:+ quoted (pretty id_) +:+
              " name=" +:+ quoted name +:+ "/>" +:+ nl +:+
  "    <p:cNvSpPr/>" +:+ nl +:+
  "    <p:nvPr/>" +:+ nl +:+
  "  </p:nvSpPr>" +:+ nl +:+
  "  <p:spPr>" +:+ nl +:+
  "    <a:xfrm>" +:+ nl +:+
  "      <a:off x=" +:+ quoted (pretty left) +:+
                " y=" +:+ quoted (pretty top) +:+ "/>" +:+ nl +:+
  "      <a:ext cx=" +:+ quoted (pretty width) +:+
                " cy=" +:+ quoted (pretty height) +:+ "/>" +:+ nl +:+
  "    </a:xfrm>" +:+ nl +:+
  "    <a:prstGeom prst=" +:+ quoted prst +:+ ">" +:+ nl +:+
  "      <a:avLst/>" +:+ nl +:+
  "    </a:prstGeom>" +:+ nl +:+
  "  </p:spPr>" +:+ nl +:+
  "  <p:style>" +:+ nl +:+
  "    <a:lnRef idx=" +:+ quoted "1" +:+ ">" +:+ nl +:+
  "      <a:schemeClr val=" +:+ quoted "accent1" +:+ "/>" +:+ nl +:+
  "    </a:lnRef>" +:+ nl +:+
  "    <a:fillRef idx=" +:+ quoted "3" +:+ ">" +:+ nl +:+
  "      <a:schemeClr val=" +:+ quoted "accent1" +:+ "/>" +:+ nl +:+
  "    </a:fillRef>" +:+ nl +:+
  "    <a:effectRef idx=" +:+ quoted "2" +:+ ">" +:+ nl +:+
  "      <a:schemeClr val=" +:+ quoted "accent1" +:+ "/>" +:+ nl +:+
  "    </a:effectRef>" +:+ nl +:+
  "    <a:fontRef idx=" +:+ quoted "minor" +:+ ">" +:+ nl +:+
  "      <a:schemeClr val=" +:+ quoted "lt1" +:+ "/>" +:+ nl +:+
  "    </a:fontRef>" +:+ nl +:+
  "  </p:style>" +:+ nl +:+
  "  <p:txBody>" +:+ nl +:+
  "    <a:bodyPr rtlCol=" +:+ quoted "0" +:+
              " anchor=" +:+ quoted "ctr" +:+ "/>" +:+ nl +:+
  "    <a:lstStyle/>" +:+ nl +:+
  "    <a:p>" +:+ nl +:+
  "      <a:pPr algn=" +:+ quoted "ctr" +:+ "/>" +:+ nl +:+
  "    </a:p>" +:+ nl +:+
  "  </p:txBody>" +:+ nl +:+
  "</p:sp>".

(** The element tree the text of [_autoshape_sp_tmpl] denotes; it is what
    the parser returns for it as long as [name] and [prst] hold no
    markup. *)
Definition _autoshape_sp_tree (id_ : Z) (name : string)
    (left top width height : Z) (prst : string) : element :=
  Node (ns.qn "p:sp") []
    [ Node (ns.qn "p:nvSpPr") []
        [ Node (ns.qn "p:cNvPr") [("id", pretty id_); ("name", name)] [];
          Node (ns.qn "p:cNvSpPr") [] [];
          Node (ns.qn "p:nvPr") [] [] ];
      Node (ns.qn "p:spPr") []
        [ Node (ns.qn "a:xfrm") []
            [ Node (ns.qn "a:off") [("x", pretty left); ("y", pretty top)] [];
              Node (ns.qn "a:ext")
                   [("cx", pretty width); ("cy", pretty height)] [] ];
          Node (ns.qn "a:prstGeom") [("prst", prst)]
            [ Node (ns.qn "a:avLst") [] [] ] ];
      Node (ns.qn "p:style") []
        [ Node (ns.qn "a:lnRef") [("idx", "1")]
            [ Node (ns.qn "a:schemeClr") [("val", "accent1")] [] ];
          Node (ns.qn "a:fillRef") [("idx", "3")]
            [ Node (ns.qn "a:schemeClr") [("val", "accent1")] [] ];
          Node (ns.qn "a:effectRef") [("idx", "2")]
            [ Node (ns.qn "a:schemeClr") [("val", "accent1")] [] ];
          Node (ns.qn "a:fontRef") [("idx", "minor")]
            [ Node (ns.qn "a:schemeClr") [("val", "lt1")] [] ] ];
      Node (ns.qn "p:txBody") []
        [ Node (ns.qn "a:bodyPr") [("rtlCol", "0"); ("anchor", "ctr")] [];
          Node (ns.qn "a:lstStyle") [] [];
          Node (ns.qn "a:p") []
            [ Node (ns.qn "a:pPr") [("algn", "ctr")] [] ] ] ].

(** [_textbox_sp_tmpl % (id_, name, left, top, width, height)] *)
Definition _textbox_sp_tmpl (id_ : Z) (name : string)
    (left top width height : Z) : string :=
  "<p:sp " +:+ nsdecls ["a"; "p"] +:+ ">" +:+ nl +:+
  "  <p:nvSpPr>" +:+ nl +:+
  "    <p:cNvPr id=" +:+ quoted (pretty id_) +:+
              " name=" +:+ quoted name +:+ "/>" +:+ nl +:+
  "    <p:cNvSpPr txBox=" +:+ quoted "1" +:+ "/>" +:+ nl +:+
  "    <p:nvPr/>" +:+ nl +:+
  "  </p:nvSpPr>" +:+ nl +:+
  "  <p:spPr>" +:+ nl +:+
  "    <a:xfrm>" +:+ nl +:+
  "      <a:off x=" +:+ quoted (pretty left) +:+
                " y=" +:+ quoted (pretty top) +:+ "/>" +:+ nl +:+
  "      <a:ext cx=" +:+ quoted (pretty width) +:+
                " cy=" +:+ quoted (pretty height) +:+ "/>" +:+ nl +:+
  "    </a:xfrm>" +:+ nl +:+
  "    <a:prstGeom prst=" +:+ quoted "rect" +:+ ">" +:+ nl +:+
  "      <a:avLst/>" +:+ nl +:+
  "    </a:prstGeom>" +:+ nl +:+
  "    <a:noFill/>" +:+ nl +:+
  "  </p:spPr>" +:+ nl +:+
  "  <p:txBody>" +:+ nl +:+
  "    <a:bodyPr wrap=" +:+ quoted "none" +:+ ">" +:+ nl +:+
  "      <a:spAutoFit/>" +:+ nl +:+
  "    </a:bodyPr>" +:+ nl +:+
  "    <a:lstStyle/>" +:+ nl +:+
  "    <a:p/>" +:+ nl +:+
  "  </p:txBody>" +:+ nl +:+
  "</p:sp>".

(** The element tree the text of [_textbox_sp_tmpl] denotes; it is what
    the parser returns for it as long as [name] holds no markup. *)
Definition _textbox_sp_tree (id_ : Z) (name : string)
    (left top width height : Z) : element :=
  Node (ns.qn "p:sp") []
    [ Node (ns.qn "p:nvSpPr") []
        [ Node (ns.qn "p:cNvPr") [("id", pretty id_); ("name", name)] [];
          Node (ns.qn "p:cNvSpPr") [("txBox", "1")] [];
          Node (ns.qn "p:nvPr") [] [] ];
      Node (ns.qn "p:spPr") []
        [ Node (ns.qn "a:xfrm") []
            [ Node (ns.qn "a:off") [("x", pretty left); ("y", pretty top)] [];
              Node (ns.qn "a:ext")
                   [("cx", pretty width); ("cy", pretty height)] [] ];
          Node (ns.qn "a:prstGeom") [("prst", "rect")]
            [ Node (ns.qn "a:avLst") [] [] ];
          Node (ns.qn "a:noFill") [] [] ];
      Node (ns.qn "p:txBody") []
        [ Node (ns.qn "a:bodyPr") [("wrap", "none")]
            [ Node (ns.qn "a:spAutoFit") [] [] ];
          Node (ns.qn "a:lstStyle") [] [];
          Node (ns.qn "a:p") [] [] ] ].

(** Return a new [<p:sp>] element tree configured as a base auto shape. *)
Definition new_autoshape_sp (id_ : Z) (name prst : string)
    (left top width height : Z) : result element :=
  let xml := _autoshape_sp_tmpl id_ name left top width height prst in
  sp ← parse_xml_bytes xml;
  Ok (objectify.deannotate sp).

(** Return a new [<p:sp>] element tree configured as a base textbox
    shape. *)
Definition new_textbox_sp (id_ : Z) (name : string)
    (left top width height : Z) : result element :=
  let xml := _textbox_sp_tmpl id_ name left top width height in
  sp ← parse_xml_bytes xml;
  Ok (objectify.deannotate sp).

(** The four properties of the class follow as their getters, the
    functions the source defines; [sp.is_autoshape] read on an instance
    is [objectify.getproperty "is_autoshape" is_autoshape sp], and
    likewise for the other three. *)

(** True if this shape is an auto shape.  A shape is an auto shape if it
    has a [<a:prstGeom>] element and does not have a txBox="1" attribute
    on cNvSpPr.  (Getter of the property.) *)
Definition is_autoshape (self : element) : result bool :=
  spPr ← objectify.getattr "spPr" self;
  let prstGeom := core.child spPr "a:prstGeom" in
  if decide (prstGeom = None) then Ok false
  else
    nvSpPr ← objectify.getattr "nvSpPr" self;
    cNvSpPr ← objectify.getattr "cNvSpPr" nvSpPr;
    let txBox := etree.get "txBox" cNvSpPr in
    if decide (txBox ∈ [Some "true"; Some "1"]) then Ok false
    else Ok true.

(** True if this shape is a text box.  A shape is a text box if it has a
    txBox="1" attribute on cNvSpPr.  (Getter of the property.) *)
Definition is_textbox (self : element) : result bool :=
  nvSpPr ← objectify.getattr "nvSpPr" self;
  cNvSpPr ← objectify.getattr "cNvSpPr" nvSpPr;
  let txBox := etree.get "txBox" cNvSpPr in
  if decide (txBox ∈ [Some "true"; Some "1"]) then Ok true
  else Ok false.

(** Return a new [<p:sp>] element tree configured as a placeholder
    shape. *)
Definition new_placeholder_sp (id_ : Z) (name ph_type orient sz : string)
    (idx : Z) : result element :=
  let xml := _ph_sp_tmpl id_ name in
  sp ← parse_xml_bytes xml;
  (* placeholder shapes get a "no group" lock *)
  sp ← objectify.with_attr "nvSpPr" (objectify.with_attr "cNvSpPr"
         (λ cNvSpPr, Ok (core.SubElement "a:spLocks" cNvSpPr).2)) sp;
  sp ← objectify.with_attr "nvSpPr" (objectify.with_attr "cNvSpPr"
         (objectify.with_item (ns.qn "a:spLocks")
            (λ spLocks, Ok (etree.set "noGrp" "1" spLocks)))) sp;
  (* placeholder (ph) element attributes values vary by type *)
  sp ← objectify.with_attr "nvSpPr" (objectify.with_attr "nvPr"
         (λ nvPr,
            let '(ph, nvPr) := core.SubElement "p:ph" nvPr in
            let nvPr :=
              if decide (ph_type ≠ PH_TYPE_OBJ)
              then etree.at_child ph (etree.set "type" ph_type) nvPr
              else nvPr in
            let nvPr :=
              if decide (orient ≠ PH_ORIENT_HORZ)
              then etree.at_child ph (etree.set "orient" orient) nvPr
              else nvPr in
            let nvPr :=
              if decide (sz ≠ PH_SZ_FULL)
              then etree.at_child ph (etree.set "sz" sz) nvPr
              else nvPr in
            let nvPr :=
              if decide (idx ≠ 0%Z)
              then etree.at_child ph (etree.set "idx" (pretty idx)) nvPr
              else nvPr in
            Ok nvPr)) sp;
  let placeholder_types_that_have_a_text_frame :=
    [PH_TYPE_TITLE; PH_TYPE_CTRTITLE; PH_TYPE_SUBTITLE; PH_TYPE_BODY;
     PH_TYPE_OBJ] in
  let sp :=
    if decide (ph_type ∈ placeholder_types_that_have_a_text_frame)
    then etree.append new_txBody sp
    else sp in
  Ok (objectify.deannotate sp).

(** Value of [prst] attribute of [<a:prstGeom>] element or [None] if not
    present.  (Getter of the property.) *)
Definition prst (self : element) : result (option string) :=
  spPr ← objectify.getattr "spPr" self;
  match core.child spPr "a:prstGeom" with
  | None => Ok None
  | Some prstGeom => Ok (etree.get "prst" prstGeom)
  end.

(** Reference to [<a:prstGeom>] child element or [None] if this shape
    doesn't have one, for example, if it's a placeholder shape.  (Getter
    of the property.) *)
Definition prstGeom (self : element) : result (option element) :=
  spPr ← objectify.getattr "spPr" self;
  Ok (core.child spPr "a:prstGeom").

End CT_Shape.
End CT_Shape.

(** ** Placeholder collections *)
Module _LayoutPlaceholders.

(** Modelled from the spec: [pptx.parts.slidelayout] is not among the
    sources (only its tests are).  Section 3: a placeholder descriptor
    has a type, an orientation, a size and an index, each attribute
    being optional in the document. *)
Record PlaceholderDescriptor := {
  ph_type : option string;
  ph_orient : option string;
  ph_sz : option string;
  ph_idx : option nat
}.

(** Modelled from the spec: section 3, a shape element of the shape
    tree with its optional placeholder descriptor. *)
Record ShapeElement := {
  shape_id : nat;
  shape_name : string;
  placeholder : option PlaceholderDescriptor
}.

(** Modelled from the spec: the resolved index of a placeholder, an
    absent index attribute counting as zero (section 4.6). *)
Definition idx (shape : ShapeElement) : nat :=
  default 0 (placeholder shape ≫= ph_idx).

(** Modelled from the spec: [all()], every placeholder shape of the
    owning shape tree in document order (section 4.6). *)
Definition all (shape_tree : list ShapeElement) : list ShapeElement :=
  filter (λ shape, is_Some (placeholder shape)) shape_tree.

(** Modelled from the spec: [get(index, default)], the first placeholder
    of [all()] whose resolved index equals [index], or [default] if none
    match (section 4.6). *)
Fixpoint scan {D : Type} (index : nat) (default : D)
    (placeholders : list ShapeElement) : ShapeElement + D :=
  match placeholders with
  | [] => inr default
  | placeholder :: placeholders =>
      if decide (idx placeholder = index) then inl placeholder
      else scan index default placeholders
  end.

Definition get {D : Type} (index : nat) (default : D)
    (shape_tree : list ShapeElement) : ShapeElement + D :=
  scan index default (all shape_tree).

End _LayoutPlaceholders.

(** ** Vocabulary of the properties *)
Section vocabulary.
Context `{!Imports}.

(** The fill elements a [<p:spPr>] may hold, solid fill apart. *)
Definition other_fill_tagnames : list string :=
  ["a:noFill"; "a:gradFill"; "a:blipFill"; "a:pattFill"; "a:grpFill"].

Definition fill_tagnames : list string :=
  "a:solidFill" :: other_fill_tagnames.

(** The elements that follow the fill in a [<p:spPr>]. *)
Definition successor_tagnames : list string :=
  ["a:ln"; "a:effectLst"; "a:effectDag"; "a:scene3d"; "a:sp3d"; "a:extLst"].

Definition is_fill (e : element) : Prop := tag e ∈ ns.qn <$> fill_tagnames.

#[global] Instance is_fill_dec e : Decision (is_fill e).
Proof. unfold is_fill. apply _. Defined.

(** The number of fill elements among the children of [self]. *)
Definition fill_count (self : element) : nat :=
  length (filter is_fill (children self)).

(** One pass over a child list that leaves out, for each tag of [ts],
    the first child that bears it. *)
Fixpoint drop_firsts (ts : list QName) (l : list element) : list element :=
  match l with
  | [] => []
  | c :: l =>
      if decide (tag c ∈ ts)
      then drop_firsts (filter (λ t, t ≠ tag c) ts) l
      else c :: drop_firsts ts l
  end.

(** The child list without its first child tagged [t], if there is one. *)
Definition remove_first (t : QName) (l : list element) : list element :=
  match list_find (λ c, tag c = t) l with
  | Some (i, _) => delete i l
  | None => l
  end.

(** The guide element [rewrite_guides] writes for one (name, value). *)
Definition gd_of (guide : string * Z) : element :=
  Node (ns.qn "a:gd")
       [("name", guide.1); ("fmla", "val " +:+ pretty guide.2)] [].

(** What rewriting the guides asks for, in the words of section 4.1: the
    guide list of the container is replaced as a whole by one element per
    entry of [guides], in the given order. *)
Definition guides_replaced (guides : list (string * Z))
    (avLst : element) : element :=
  Node (tag avLst) (attrib avLst)
       (filter (λ c, tag c ≠ ns.qn "a:gd") (children avLst)
        ++ (gd_of <$> guides)).

(** The geometry element with its guide list replaced, the container
    being made as the last child when there is none. *)
Definition with_guides (guides : list (string * Z))
    (self : element) : element :=
  match etree.find (ns.qn "a:avLst") self with
  | Some avLst => etree.at_child avLst (guides_replaced guides) self
  | None => etree.append (guides_replaced guides (core.Element "a:avLst")) self
  end.

(** [sp.nvSpPr.nvPr.ph], the placeholder descriptor of a shape. *)
Definition ph_of (sp : element) : result element :=
  nvSpPr ← objectify.getattr "nvSpPr" sp;
  nvPr ← objectify.getattr "nvPr" nvSpPr;
  objectify.getattr "ph" nvPr.

(** The attributes of a placeholder descriptor under the sparse policy
    of section 4.3: each one is written only when it differs from its
    default. *)
Definition ph_attrib (ph_type orient sz : string) (idx : Z)
  : list (string * string) :=
  (if decide (ph_type ≠ PH_TYPE_OBJ) then [("type", ph_type)] else [])
  ++ (if decide (orient ≠ PH_ORIENT_HORZ) then [("orient", orient)] else [])
  ++ (if decide (sz ≠ PH_SZ_FULL) then [("sz", sz)] else [])
  ++ (if decide (idx ≠ 0%Z) then [("idx", pretty idx)] else []).

Definition text_placeholder_types : list string :=
  [PH_TYPE_TITLE; PH_TYPE_CTRTITLE; PH_TYPE_SUBTITLE; PH_TYPE_BODY;
   PH_TYPE_OBJ].

(** The placeholder fragment of section 6:
    [p:sp > { p:nvSpPr > (p:cNvPr, p:cNvSpPr > a:spLocks[noGrp=1],
    p:nvPr > p:ph[type?,orient?,sz?,idx?]), p:spPr, [p:txBody]? }]. *)
Definition placeholder_fragment (id_ : Z) (name ph_type orient sz : string)
    (idx : Z) : element :=
  Node (ns.qn "p:sp") []
    ([ Node (ns.qn "p:nvSpPr") []
         [ Node (ns.qn "p:cNvPr") [("id", pretty id_); ("name", name)] [];
           Node (ns.qn "p:cNvSpPr") []
             [ Node (ns.qn "a:spLocks") [("noGrp", "1")] [] ];
           Node (ns.qn "p:nvPr") []
             [ Node (ns.qn "p:ph") (ph_attrib ph_type orient sz idx) [] ] ];
       Node (ns.qn "p:spPr") [] [] ]
     ++ (if decide (ph_type ∈ text_placeholder_types)
         then [objectify.deannotate new_txBody] else [])).

(** The place of a tag in the sequence the schema gives to the elements
    that follow the fill, for an element that is one of them. *)
Definition successor_rank (c : element) : option nat :=
  fst <$> list_find (λ tagname, tag c = ns.qn tagname) successor_tagnames.

(** [c1] may stand before [c2]: when both follow the fill, [c1] is not
    later in the schema's sequence than [c2]. *)
Definition schema_order (c1 c2 : element) : Prop :=
  ∀ r1 r2, successor_rank c1 = Some r1 → successor_rank c2 = Some r2 →
           r1 ≤ r2.


(** [sp.nvSpPr.cNvSpPr.get('txBox')], the text-box flag of a shape. *)
Definition txBox_of (sp : element) : result (option string) :=
  nvSpPr ← objectify.getattr "nvSpPr" sp;
  cNvSpPr ← objectify.getattr "cNvSpPr" nvSpPr;
  Ok (etree.get "txBox" cNvSpPr).

End vocabulary.

(** ** A concrete environment and sample documents *)

(** A reader for the XML subset the shape templates are written in:
    elements, attributes in single or double quotes, namespace
    declarations and the references [&amp;], [&lt;], [&gt;], [&quot;],
    [&apos;] and [&#...;].  It stands for the lxml parser in the sample
    environment below.  Character data is checked and passed over, as
    the element model has none.  What is not well formed is a syntax
    error: an ampersand that starts no reference, a [<] inside an
    attribute value, an attribute given twice, a prefix that is not
    declared.  Comments, processing instructions, CDATA sections and
    references to characters beyond ASCII are outside the subset and
    are reported as syntax errors too. *)
Module xml.

Inductive mode :=
  | Content
  | ContentRef (ref : string)
  | TagStart
  | OpenName (name : string)
  | InTag (name : string) (attrs : list (string * string))
  | AfterValue (name : string) (attrs : list (string * string))
  | AttrName (name : string) (attrs : list (string * string)) (key : string)
  | AttrEq (name : string) (attrs : list (string * string)) (key : string)
  | AttrQuote (name : string) (attrs : list (string * string)) (key : string)
  | AttrValue (name : string) (attrs : list (string * string))
      (key : string) (quote : ascii) (value : string)
  | AttrRef (name : string) (attrs : list (string * string))
      (key : string) (quote : ascii) (value ref : string)
  | EmptyClose (name : string) (attrs : list (string * string))
  | CloseName (name : string)
  | CloseSpace (name : string)
  | Done (root : element)
  | Failed.

(** An element whose end tag has not been read yet. *)
Record frame := {
  raw_name : string;
  frame_tag : QName;
  frame_attrib : list (string * string);
  scope : list (string * string);
  kids : list element
}.

Definition is_space (c : ascii) : bool :=
  bool_decide (c ∈ [ascii_of_nat 32; ascii_of_nat 9; ascii_of_nat 10;
                    ascii_of_nat 13]).

(** Letters, the underscore, the colon and the bytes of a character
    beyond ASCII start a name; digits, the hyphen and the full stop may
    follow. *)
Definition is_name_start (c : ascii) : bool :=
  let n := nat_of_ascii c in
  bool_decide (65 ≤ n ≤ 90 ∨ 97 ≤ n ≤ 122 ∨ n = 95 ∨ n = 58 ∨ 128 ≤ n).

Definition is_name_char (c : ascii) : bool :=
  let n := nat_of_ascii c in
  is_name_start c || bool_decide (48 ≤ n ≤ 57 ∨ n = 45 ∨ n = 46).

Definition snoc (s : string) (c : ascii) : string := s +:+ String c "".

(** Line ends are read as a single line feed. *)
Fixpoint newlines (text : string) : string :=
  match text with
  | EmptyString => EmptyString
  | String c rest =>
      if decide (c = ascii_of_nat 13) then
        String (ascii_of_nat 10)
          match rest with
          | String c' rest' =>
              if decide (c' = ascii_of_nat 10) then newlines rest'
              else newlines rest
          | EmptyString => EmptyString
          end
      else String c (newlines rest)
  end.

Definition digit (base : N) (c : ascii) : option N :=
  let n := N_of_ascii c in
  if decide (48 ≤ n ≤ 57)%N then Some (n - 48)%N
  else if decide (base = 16 ∧ 97 ≤ n ≤ 102)%N then Some (n - 87)%N
  else if decide (base = 16 ∧ 65 ≤ n ≤ 70)%N then Some (n - 55)%N
  else None.

Fixpoint number (base : N) (digits : string) (value : N) : option N :=
  match digits with
  | EmptyString => Some value
  | String c digits => d ← digit base c; number base digits (base * value + d)%N
  end.

(** The character a reference stands for, [None] when there is no such
    character: the name between [&] and [;] is one of the five the
    language defines, or [#] and the decimal number of a character, or
    [#x] and its hexadecimal number. *)
Definition reference (ref : string) : option N :=
  match ref with
  | String "#" digits =>
      n ← match digits with
          | EmptyString | String "x" EmptyString => None
          | String "x" hex => number 16 hex 0
          | _ => number 10 digits 0
          end;
      if decide (n ∈ [9; 10; 13] ∨ 32 ≤ n ≤ 55295 ∨ 57344 ≤ n ≤ 65533
                 ∨ 65536 ≤ n ≤ 1114111)%N
      then Some n else None
  | _ =>
      (snd ∘ snd) <$>
        list_find (λ entity, entity.1 = ref)
          [("amp", 38%N); ("lt", 60%N); ("gt", 62%N); ("quot", 34%N);
           ("apos", 39%N)]
  end.

(** A name with at most one colon, as prefix and local part; the prefix
    is empty when there is no colon. *)
Definition prefixed (name : string) : option (string * string) :=
  let '(prefix, tagroot) := ns.split_colon name in
  if decide (name = prefix) then
    if decide (name = "") then None else Some ("", name)
  else if decide (prefix = "" ∨ tagroot = ""
                  ∨ (ns.split_colon tagroot).1 ≠ tagroot) then None
  else Some (prefix, tagroot).

(** [xmlns:prefix="uri"] declares a prefix and [xmlns="uri"] the
    namespace of the names without prefix; any other attribute is
    kept. *)
Definition declaration (kv : string * string) : option (string * string) :=
  if decide (kv.1 = "xmlns") then Some ("", kv.2)
  else
    let '(prefix, name) := ns.split_colon kv.1 in
    if decide (prefix = "xmlns" ∧ name ≠ "") then Some (name, kv.2)
    else None.

Definition xml_namespace : string := "http://www.w3.org/XML/1998/namespace".

Definition bound (scope : list (string * string)) (prefix : string)
  : option string :=
  if decide (prefix = "xml") then Some xml_namespace
  else
    uri ← (snd ∘ snd) <$> list_find (λ d, d.1 = prefix) scope;
    if decide (uri = "") then None else Some uri.

(** The tag of an element: a name without prefix is in the default
    namespace, when one is declared. *)
Definition resolve (scope : list (string * string)) (name : string)
  : option QName :=
  '(prefix, tagroot) ← prefixed name;
  if decide (prefix = "") then
    Some {| namespace :=
              default "" ((snd ∘ snd) <$> list_find (λ d, d.1 = "") scope);
            localname := tagroot |}
  else
    uri ← bound scope prefix;
    Some {| namespace := uri; localname := tagroot |}.

(** The key of an attribute: a name with prefix is kept in Clark
    notation, a name without prefix is in no namespace. *)
Definition resolve_key (scope : list (string * string))
    (kv : string * string) : option (string * string) :=
  '(prefix, name) ← prefixed kv.1;
  if decide (prefix = "") then Some kv
  else
    uri ← bound scope prefix;
    Some ("{" +:+ uri +:+ "}" +:+ name, kv.2).

Definition open_element (name : string) (attrs : list (string * string))
    (stack : list frame) : option (list frame) :=
  let outer := match stack with f :: _ => scope f | [] => [] end in
  let declared := omap declaration attrs in
  let inner := declared ++ outer in
  if decide (Exists (λ d, d.1 ≠ "" ∧ d.2 = "") declared) then None
  else
    t ← resolve inner name;
    kept ← mapM (resolve_key inner)
                (filter (λ kv, declaration kv = None) attrs);
    if decide (NoDup kept.*1) then
      Some ({| raw_name := name; frame_tag := t; frame_attrib := kept;
               scope := inner; kids := [] |} :: stack)
    else None.

Definition close_element (name : string) (stack : list frame)
  : mode * list frame :=
  match stack with
  | f :: stack =>
      if decide (raw_name f = name) then
        let e := Node (frame_tag f) (frame_attrib f) (kids f) in
        match stack with
        | parent :: stack =>
            (Content,
             {| raw_name := raw_name parent; frame_tag := frame_tag parent;
                frame_attrib := frame_attrib parent; scope := scope parent;
                kids := kids parent ++ [e] |} :: stack)
        | [] => (Done e, [])
        end
      else (Failed, [])
  | [] => (Failed, [])
  end.

Definition opened (name : string) (attrs : list (string * string))
    (stack : list frame) (empty : bool) : mode * list frame :=
  match open_element name attrs stack with
  | Some stack => if empty then close_element name stack else (Content, stack)
  | None => (Failed, [])
  end.

Definition step (c : ascii) (st : mode * list frame) : mode * list frame :=
  let '(m, stack) := st in
  let lt := ascii_of_nat 60 in
  let gt := ascii_of_nat 62 in
  let slash := ascii_of_nat 47 in
  let eq := ascii_of_nat 61 in
  let amp := ascii_of_nat 38 in
  let semicolon := ascii_of_nat 59 in
  let quotes := [ascii_of_nat 34; ascii_of_nat 39] in
  match m with
  | Content =>
      if decide (c = lt) then (TagStart, stack)
      else if decide (stack = []) then
        if is_space c then (Content, stack) else (Failed, [])
      else if decide (c = amp) then (ContentRef "", stack)
      else (Content, stack)
  | ContentRef ref =>
      if decide (c = semicolon) then
        match reference ref with
        | Some _ => (Content, stack)
        | None => (Failed, [])
        end
      else (ContentRef (snoc ref c), stack)
  | TagStart =>
      if decide (c = slash) then (CloseName "", stack)
      else if is_name_start c then (OpenName (String c ""), stack)
      else (Failed, [])
  | OpenName name =>
      if is_space c then (InTag name [], stack)
      else if decide (c = gt) then opened name [] stack false
      else if decide (c = slash) then (EmptyClose name [], stack)
      else if is_name_char c then (OpenName (snoc name c), stack)
      else (Failed, [])
  | InTag name attrs =>
      if is_space c then (InTag name attrs, stack)
      else if decide (c = gt) then opened name attrs stack false
      else if decide (c = slash) then (EmptyClose name attrs, stack)
      else if is_name_start c then (AttrName name attrs (String c ""), stack)
      else (Failed, [])
  | AfterValue name attrs =>
      if is_space c then (InTag name attrs, stack)
      else if decide (c = gt) then opened name attrs stack false
      else if decide (c = slash) then (EmptyClose name attrs, stack)
      else (Failed, [])
  | AttrName name attrs key =>
      if decide (c = eq) then (AttrQuote name attrs key, stack)
      else if is_space c then (AttrEq name attrs key, stack)
      else if is_name_char c then (AttrName name attrs (snoc key c), stack)
      else (Failed, [])
  | AttrEq name attrs key =>
      if decide (c = eq) then (AttrQuote name attrs key, stack)
      else if is_space c then (AttrEq name attrs key, stack)
      else (Failed, [])
  | AttrQuote name attrs key =>
      if decide (c ∈ quotes) then (AttrValue name attrs key c "", stack)
      else if is_space c then (AttrQuote name attrs key, stack)
      else (Failed, [])
  | AttrValue name attrs key quote value =>
      if decide (c = quote) then
        if decide (key ∈ attrs.*1) then (Failed, [])
        else (AfterValue name (attrs ++ [(key, value)]), stack)
      else if decide (c = lt) then (Failed, [])
      else if decide (c = amp) then
        (AttrRef name attrs key quote value "", stack)
      else if is_space c then
        (AttrValue name attrs key quote (snoc value (ascii_of_nat 32)), stack)
      else (AttrValue name attrs key quote (snoc value c), stack)
  | AttrRef name attrs key quote value ref =>
      if decide (c = semicolon) then
        match reference ref with
        | Some n =>
            if decide (n < 128)%N then
              (AttrValue name attrs key quote (snoc value (ascii_of_N n)),
               stack)
            else (Failed, [])
        | None => (Failed, [])
        end
      else (AttrRef name attrs key quote value (snoc ref c), stack)
  | EmptyClose name attrs =>
      if decide (c = gt) then opened name attrs stack true else (Failed, [])
  | CloseName name =>
      if decide (c = gt) then close_element name stack
      else if is_space c then (CloseSpace name, stack)
      else if is_name_char c then (CloseName (snoc name c), stack)
      else (Failed, [])
  | CloseSpace name =>
      if decide (c = gt) then close_element name stack
      else if is_space c then (CloseSpace name, stack)
      else (Failed, [])
  | Done root => if is_space c then (Done root, stack) else (Failed, [])
  | Failed => (Failed, [])
  end.

Fixpoint run (text : string) (st : mode * list frame) : mode * list frame :=
  match text with
  | EmptyString => st
  | String c text => run text (step c st)
  end.

Definition parse (text : string) : result element :=
  match run (newlines text) (Content, []) with
  | (Done root, _) => Ok root
  | _ => Raise XMLSyntaxError
  end.

End xml.

Definition drawingml : string :=
  "http://schemas.openxmlformats.org/drawingml/2006/main".
Definition presentationml : string :=
  "http://schemas.openxmlformats.org/presentationml/2006/main".

Definition ooxml_nsmap (prefix : string) : string :=
  if decide (prefix = "a") then drawingml
  else if decide (prefix = "p") then presentationml
  else "".

(** The two prefixes of the shape vocabulary, the reader above for parser
    and the attribute values the format's schema gives to the placeholder
    defaults. *)
Definition ooxml : Imports := {|
  nsmap := ooxml_nsmap;
  nsdecls prefixes :=
    String.concat " "
      ((λ prefix,
          "xmlns:" +:+ prefix +:+ "=" +:+ dq +:+ ooxml_nsmap prefix +:+ dq)
       <$> prefixes);
  parse_xml_bytes := xml.parse;
  new_txBody :=
    Node {| namespace := presentationml; localname := "txBody" |} []
      [ Node {| namespace := drawingml; localname := "bodyPr" |} [] [];
        Node {| namespace := drawingml; localname := "lstStyle" |} [] [];
        Node {| namespace := drawingml; localname := "p" |} [] [] ];
  PH_ORIENT_HORZ := "horz";
  PH_SZ_FULL := "full";
  PH_TYPE_BODY := "body";
  PH_TYPE_CTRTITLE := "ctrTitle";
  PH_TYPE_OBJ := "obj";
  PH_TYPE_SUBTITLE := "subTitle";
  PH_TYPE_TITLE := "title"
|}.

Module sample.
Section sample.
#[local] Existing Instance ooxml.

Definition a (name : string) (attrs : list (string * string))
    (content : list element) : element :=
  Node {| namespace := drawingml; localname := name |} attrs content.
Definition p (name : string) (attrs : list (string * string))
    (content : list element) : element :=
  Node {| namespace := presentationml; localname := name |} attrs content.

(** [<p:spPr><a:gradFill/><a:ln/></p:spPr>] *)
Definition spPr_gradFill_ln : element :=
  p "spPr" [] [a "gradFill" [] []; a "ln" [] []].

(** Shape properties with transform, geometry, gradient fill, line and
    extension list, in the order of the schema. *)
Definition spPr_in_schema_order : element :=
  p "spPr" []
    [ a "xfrm" [] []; a "prstGeom" [("prst", "rect")] []; a "gradFill" [] []; a "ln" [] [];
      a "extLst" [] [] ].

(** A malformed [<p:spPr>] that holds two gradient fills. *)
Definition spPr_two_gradFill : element :=
  p "spPr" [] [a "gradFill" [] []; a "gradFill" [] []].

(** [<a:prstGeom prst="roundRect">] with one guide. *)
Definition prstGeom_roundRect : element :=
  a "prstGeom" [("prst", "roundRect")]
    [a "avLst" [] [a "gd" [("name", "adj"); ("fmla", "val 16667")] []]].

(** [<a:prstGeom prst="rect"/>], without guide-list container. *)
Definition prstGeom_bare : element := a "prstGeom" [("prst", "rect")] [].

Definition nvSpPr (cNvSpPr_attrs : list (string * string)) : element :=
  p "nvSpPr" []
    [ p "cNvPr" [("id", "2"); ("name", "Shape 1")] [];
      p "cNvSpPr" cNvSpPr_attrs [];
      p "nvPr" [] [] ].

(** An auto shape: preset geometry, no text-box flag. *)
Definition sp_autoshape : element :=
  p "sp" [] [nvSpPr []; p "spPr" [] [prstGeom_roundRect]].

(** A shape with a preset geometry whose flag is spelled [TRUE]. *)
Definition sp_txBox_upper : element :=
  p "sp" [] [nvSpPr [("txBox", "TRUE")]; p "spPr" [] [prstGeom_roundRect]].

(** A shape without geometry, as a placeholder is. *)
Definition sp_no_geometry : element :=
  p "sp" [] [nvSpPr []; p "spPr" [] []].

(** A shape whose properties element is missing. *)
Definition sp_without_spPr : element := p "sp" [] [nvSpPr []].

(** A shape without properties that has children named after two
    properties of its class. *)
Definition sp_shadowed : element :=
  p "sp" [] [p "is_autoshape" [] []; p "is_textbox" [] []].

(** A shape whose non-visual properties lack [<p:cNvSpPr>]. *)
Definition sp_without_cNvSpPr : element :=
  p "sp" []
    [ p "nvSpPr" [] [p "cNvPr" [("id", "2"); ("name", "Shape 1")] []];
      p "spPr" [] [prstGeom_roundRect] ].

(** A layout shape tree: a title placeholder without index attribute, a
    body placeholder with index 1 and a shape that is no placeholder. *)
Definition layout_shapes : list _LayoutPlaceholders.ShapeElement :=
  [ {| _LayoutPlaceholders.shape_id := 2;
       _LayoutPlaceholders.shape_name := "Title 1";
       _LayoutPlaceholders.placeholder :=
         Some {| _LayoutPlaceholders.ph_type := Some "title";
                 _LayoutPlaceholders.ph_orient := None;
                 _LayoutPlaceholders.ph_sz := None;
                 _LayoutPlaceholders.ph_idx := None |} |};
    {| _LayoutPlaceholders.shape_id := 3;
       _LayoutPlaceholders.shape_name := "Logo";
       _LayoutPlaceholders.placeholder := None |};
    {| _LayoutPlaceholders.shape_id := 4;
       _LayoutPlaceholders.shape_name := "Content 2";
       _LayoutPlaceholders.placeholder :=
         Some {| _LayoutPlaceholders.ph_type := Some "body";
                 _LayoutPlaceholders.ph_orient := None;
                 _LayoutPlaceholders.ph_sz := None;
                 _LayoutPlaceholders.ph_idx := Some 1 |} |} ].

End sample.
End sample.

(** * Properties *)

(** ** Facts about lists *)
Section list_facts.
Context {A : Type} (P : A → Prop) `{!∀ x, Decision (P x)}.

Lemma filter_all (l : list A) : Forall P l → filter P l = l.
Proof.
  induction 1 as [|x l ? ? IH]; [done|].
  by rewrite filter_cons_True, IH.
Qed.

Lemma filter_none (l : list A) : Forall (λ x, ¬ P x) l → filter P l = [].
Proof.
  induction 1 as [|x l ? ? IH]; [done|].
  by rewrite filter_cons_False, IH.
Qed.

End list_facts.

(** ** Facts about the element operations *)
Section etree_facts.
Context `{!Imports}.
Implicit Types (self c : element) (l : list element) (t : QName).

Lemma find_None t self :
  etree.find t self = None ↔ Forall (λ c, tag c ≠ t) (children self).
Proof. unfold etree.find. by rewrite fmap_None, list_find_None. Qed.

Lemma find_Some t self i :
  etree.find t self = Some i ↔
  ∃ c, children self !! i = Some c ∧ tag c = t
       ∧ Forall (λ c, tag c ≠ t) (take i (children self)).
Proof.
  unfold etree.find. rewrite fmap_Some. split.
  - intros [[j c] [Hf ->]]. apply list_find_Some in Hf as (? & ? & Hlt).
    exists c. split_and!; [done..|]. apply Forall_forall.
    intros y [k Hk]%list_elem_of_lookup.
    apply lookup_take_Some in Hk as [? ?]. eauto.
  - intros (c & ? & ? & Hpre). exists (i, c). split; [|done].
    apply list_find_Some. split_and!; [done..|].
    intros j y ? ?. rewrite Forall_forall in Hpre. apply Hpre.
    apply list_elem_of_lookup. exists j. by rewrite lookup_take_lt.
Qed.

Lemma find_lt t self i :
  etree.find t self = Some i → i < length (children self).
Proof. intros (c & ? & _)%find_Some. by eapply lookup_lt_Some. Qed.

Lemma find_nil t tg a : etree.find t (Node tg a []) = None.
Proof. done. Qed.

Lemma find_cons t tg a c l :
  etree.find t (Node tg a (c :: l)) =
  if decide (tag c = t) then Some 0 else S <$> etree.find t (Node tg a l).
Proof.
  unfold etree.find. simpl. case_decide; [done|].
  rewrite <- !option_fmap_compose. by destruct (list_find _ l) as [[]|].
Qed.

Lemma find_app_None t tg a l1 l2 :
  Forall (λ c, tag c ≠ t) l1 →
  etree.find t (Node tg a (l1 ++ l2)) =
  (λ i, length l1 + i) <$> etree.find t (Node tg a l2).
Proof.
  induction 1 as [|c l1 ? ? IH]; simpl.
  - by destruct (etree.find _ _).
  - rewrite find_cons, decide_False by done. rewrite IH.
    by destruct (etree.find t (Node tg a l2)).
Qed.

Lemma qn_fill_NoDup : NoDup (ns.qn <$> fill_tagnames).
Proof.
  apply (NoDup_fmap_1 localname). cbn.
  by apply (bool_decide_unpack _).
Qed.

End etree_facts.

(** ** Facts about the fill mutator *)
Section fill_facts.
Context `{!Imports}.
Implicit Types (self c : element) (l : list element) (t : QName).

Lemma remove_first_nil t : remove_first t [] = [].
Proof. done. Qed.

Lemma remove_first_cons t c l :
  remove_first t (c :: l) =
  if decide (tag c = t) then l else c :: remove_first t l.
Proof.
  unfold remove_first. simpl. case_decide; [done|].
  by destruct (list_find _ l) as [[]|].
Qed.

Lemma remove_if_present_fold tagnames self :
  CT_ShapeProperties._remove_if_present tagnames self =
  Node (tag self) (attrib self)
       (foldl (λ l t, remove_first t l) (children self) (ns.qn <$> tagnames)).
Proof.
  revert self. induction tagnames as [|tn tagnames IH]; intros self.
  - by destruct self.
  - simpl. rewrite IH. unfold remove_first, etree.find.
    by destruct (list_find _ (children self)) as [[]|].
Qed.

Lemma foldl_remove_first_nil ts : foldl (λ l t, remove_first t l) [] ts = [].
Proof. by induction ts. Qed.

Lemma foldl_remove_first_notin ts c l :
  tag c ∉ ts →
  foldl (λ l t, remove_first t l) (c :: l) ts =
  c :: foldl (λ l t, remove_first t l) l ts.
Proof.
  revert l. induction ts as [|t ts IH]; intros l Hc; [done|].
  apply not_elem_of_cons in Hc as [? ?]. simpl.
  rewrite remove_first_cons, decide_False by done. by apply IH.
Qed.

Lemma foldl_remove_first_drop_firsts ts l :
  NoDup ts → foldl (λ l t, remove_first t l) l ts = drop_firsts ts l.
Proof.
  revert ts. induction l as [|c l IH]; intros ts Hts.
  - apply foldl_remove_first_nil.
  - simpl. case_decide as Hc.
    + apply list_elem_of_split_l in Hc as (ts1 & ts2 & -> & Hc1).
      apply NoDup_app in Hts as (Hts1 & Hts12 & Hts2).
      apply NoDup_cons in Hts2 as [Hc2 Hts2].
      rewrite foldl_app. simpl.
      rewrite foldl_remove_first_notin, remove_first_cons by done.
      rewrite decide_True by done. rewrite <- foldl_app.
      rewrite filter_app, filter_cons, decide_False by (by intros ?).
      rewrite !filter_all by (apply Forall_forall; congruence).
      apply IH, NoDup_app. split_and!; [done| |done].
      intros x ? ?. eapply Hts12; [done|]. by right.
    + rewrite foldl_remove_first_notin by done. by rewrite IH.
Qed.

(** [_remove_if_present] leaves out the first child of each tag. *)
Lemma remove_if_present_drop_firsts tagnames self :
  NoDup (ns.qn <$> tagnames) →
  CT_ShapeProperties._remove_if_present tagnames self =
  Node (tag self) (attrib self)
       (drop_firsts (ns.qn <$> tagnames) (children self)).
Proof.
  intros. by rewrite remove_if_present_fold, foldl_remove_first_drop_firsts.
Qed.

Lemma drop_firsts_Forall (P : element → Prop) ts l :
  Forall P l → Forall P (drop_firsts ts l).
Proof.
  intros Hl. revert ts. induction Hl as [|c l ? ? IH]; intros ts; simpl.
  - constructor.
  - case_decide; [apply IH|]. constructor; [done|apply IH].
Qed.

Lemma drop_firsts_id ts l :
  Forall (λ c, tag c ∉ ts) l → drop_firsts ts l = l.
Proof.
  induction 1 as [|c l ? ? IH]; simpl; [done|].
  rewrite decide_False by done. by rewrite IH.
Qed.

Lemma filter_length_cons {A} (P : A → Prop) `{!∀ x, Decision (P x)}
    (y : A) (k : list A) :
  length (filter P k) ≤ length (filter P (y :: k)).
Proof. rewrite filter_cons. case_decide; simpl; lia. Qed.

Lemma drop_firsts_distinct ts l :
  (∀ t, t ∈ ts → length (filter (λ c, tag c = t) l) ≤ 1) →
  Forall (λ c, tag c ∉ ts) (drop_firsts ts l).
Proof.
  revert ts. induction l as [|c l IH]; intros ts Hts; simpl; [constructor|].
  case_decide as Hc.
  - assert (Forall (λ x, tag x ≠ tag c) l) as Hl.
    { specialize (Hts _ Hc). rewrite filter_cons_True in Hts by done.
      apply Forall_forall. intros x Hx Hxc.
      assert (x ∈ filter (λ c0, tag c0 = tag c) l) as Hin
        by by apply list_elem_of_filter.
      destruct (filter _ l); [by apply elem_of_nil in Hin|simpl in Hts; lia]. }
    pose proof (drop_firsts_Forall _ (filter (λ t, t ≠ tag c) ts) _ Hl) as Hc'.
    assert (Forall (λ c0, tag c0 ∉ filter (λ t, t ≠ tag c) ts)
                   (drop_firsts (filter (λ t, t ≠ tag c) ts) l)) as Hrest.
    { apply IH. intros t [_ Ht]%list_elem_of_filter.
      etrans; [apply (filter_length_cons _ c)|]. by apply Hts. }
    rewrite Forall_forall in Hc', Hrest. apply Forall_forall.
    intros x Hx Hxt. apply (Hrest x Hx), list_elem_of_filter. auto.
  - constructor; [done|]. apply IH. intros t Ht.
    etrans; [apply (filter_length_cons _ c)|]. by apply Hts.
Qed.

Lemma filter_length_mono {A} (P Q : A → Prop)
    `{!∀ x, Decision (P x), !∀ x, Decision (Q x)} (k : list A) :
  (∀ x, P x → Q x) → length (filter P k) ≤ length (filter Q k).
Proof.
  intros HPQ. induction k as [|y k IH]; [done|].
  rewrite !filter_cons.
  destruct (decide (P y)), (decide (Q y)); simpl; try lia.
  exfalso. auto.
Qed.

End fill_facts.

(** ** The fill mutator *)
Section fill_properties.
Context `{!Imports}.
Implicit Types (self c : element) (l : list element) (t : QName).

Lemma first_successor_in_Some tagnames self k :
  CT_ShapeProperties._first_successor_in tagnames self = Some k →
  ∃ ts1 tn ts2,
    tagnames = ts1 ++ tn :: ts2
    ∧ Forall (λ c, tag c ∉ ns.qn <$> ts1) (children self)
    ∧ etree.find (ns.qn tn) self = Some k.
Proof.
  induction tagnames as [|tn tagnames IH]; [done|]. simpl.
  destruct (etree.find (ns.qn tn) self) as [i|] eqn:Hfind.
  - intros [= <-]. exists [], tn, tagnames. split_and!; [done| |done].
    apply Forall_forall. intros c _. apply not_elem_of_nil.
  - intros (ts1 & tn' & ts2 & -> & Hpre & ?)%IH.
    exists (tn :: ts1), tn', ts2. split_and!; [done| |done].
    apply find_None in Hfind.
    apply Forall_forall. intros c Hc. rewrite fmap_cons, not_elem_of_cons.
    rewrite Forall_forall in Hfind, Hpre. split; auto.
Qed.

Lemma first_successor_in_None tagnames self :
  CT_ShapeProperties._first_successor_in tagnames self = None →
  Forall (λ c, tag c ∉ ns.qn <$> tagnames) (children self).
Proof.
  induction tagnames as [|tn tagnames IH]; simpl.
  - intros _. apply Forall_forall. intros c _. apply not_elem_of_nil.
  - destruct (etree.find (ns.qn tn) self) as [i|] eqn:Hfind; [done|].
    intros Hrest%IH. apply find_None in Hfind.
    apply Forall_forall. intros c Hc. rewrite not_elem_of_cons.
    rewrite Forall_forall in Hfind, Hrest. split; auto.
Qed.

Lemma lookup_insert_middle {A} (l : list A) (k : nat) (x : A) :
  k ≤ length l → (take k l ++ x :: drop k l) !! k = Some x.
Proof.
  intros. rewrite lookup_app_r; rewrite length_take_le by done; [|done].
  by rewrite Nat.sub_diag.
Qed.

Lemma coerce_without_solidFill self :
  CT_ShapeProperties.solidFill self = None →
  let kept := drop_firsts (ns.qn <$> other_fill_tagnames) (children self) in
  ∃ k self',
    CT_ShapeProperties.get_or_change_to_solidFill self = (k, self')
    ∧ self' = Node (tag self) (attrib self)
                (take k kept ++ core.Element "a:solidFill" :: drop k kept)
    ∧ etree.getitem k self' = Some (Node (ns.qn "a:solidFill") [] [])
    ∧ ((∃ ts1 tn ts2 succ,
          successor_tagnames = ts1 ++ tn :: ts2
          ∧ Forall (λ c, tag c ∉ ns.qn <$> ts1) kept
          ∧ kept !! k = Some succ ∧ tag succ = ns.qn tn
          ∧ Forall (λ c, tag c ≠ ns.qn tn) (take k kept))
       ∨ (Forall (λ c, tag c ∉ ns.qn <$> successor_tagnames) kept
          ∧ k = length kept)).
Proof.
  intros Hnone kept. unfold CT_ShapeProperties.get_or_change_to_solidFill.
  rewrite Hnone, remove_if_present_drop_firsts.
  2:{ pose proof qn_fill_NoDup as Hnd. by apply NoDup_cons in Hnd as [_ ?]. }
  fold other_fill_tagnames. fold kept.
  unfold CT_ShapeProperties._add_solidFill. fold successor_tagnames.
  destruct (CT_ShapeProperties._first_successor_in _ _) as [k|] eqn:Hsucc.
  - apply first_successor_in_Some in Hsucc as (ts1 & tn & ts2 & Hts & Hpre & Hk).
    simpl in Hpre. pose proof (find_lt _ _ _ Hk) as Hlt. simpl in Hlt.
    apply find_Some in Hk as (succ & Hsuccessor & Htag & Hbefore).
    simpl in Hsuccessor, Hbefore.
    eexists k, _. split_and!; [done|done| |].
    + unfold etree.getitem. simpl. apply lookup_insert_middle. lia.
    + left. by exists ts1, tn, ts2, succ.
  - apply first_successor_in_None in Hsucc. simpl in Hsucc.
    eexists (length kept), _. split_and!; [done| | |].
    + unfold etree.append. simpl. by rewrite take_ge, drop_ge by done.
    + unfold etree.getitem. simpl. by rewrite lookup_app_r, Nat.sub_diag.
    + by right.
Qed.

Lemma coerce_without_solidFill_le self k self' :
  CT_ShapeProperties.solidFill self = None →
  CT_ShapeProperties.get_or_change_to_solidFill self = (k, self') →
  k ≤ length (drop_firsts (ns.qn <$> other_fill_tagnames) (children self)).
Proof.
  intros Hnone Hcall.
  destruct (coerce_without_solidFill self Hnone)
    as (k' & self'' & Hcall' & _ & _ & Hk).
  rewrite Hcall in Hcall'. injection Hcall' as <- <-.
  destruct Hk as [(_ & _ & _ & succ & _ & _ & Hsucc & _)|[_ ->]]; [|done].
  apply lookup_lt_Some in Hsucc. lia.
Qed.

Lemma is_fill_solidFill c : tag c = ns.qn "a:solidFill" → is_fill c.
Proof. intros Hc. unfold is_fill. rewrite Hc. by left. Qed.

Lemma is_fill_other c :
  tag c ∈ ns.qn <$> other_fill_tagnames → is_fill c.
Proof. intros Hc. unfold is_fill. by right. Qed.

Lemma not_is_fill c :
  tag c ≠ ns.qn "a:solidFill" → tag c ∉ ns.qn <$> other_fill_tagnames →
  ¬ is_fill c.
Proof.
  intros ? ?. unfold is_fill, fill_tagnames.
  rewrite fmap_cons, not_elem_of_cons. done.
Qed.

(** C1: on a properties element without solid fill the coercion leaves
    out the first child of each other fill tag and puts a new, empty
    [<a:solidFill>] right before the first child that bears the first
    present tag among [a:ln], [a:effectLst], [a:effectDag], [a:scene3d],
    [a:sp3d], [a:extLst], or last when none of them is there; the
    reference it returns is the position of that new child. *)
Theorem get_or_change_to_solidFill_inserts self :
  Forall (λ c, tag c ≠ ns.qn "a:solidFill") (children self) →
  let kept := drop_firsts (ns.qn <$> other_fill_tagnames) (children self) in
  ∃ k self',
    CT_ShapeProperties.get_or_change_to_solidFill self = (k, self')
    ∧ self' = Node (tag self) (attrib self)
                (take k kept ++ core.Element "a:solidFill" :: drop k kept)
    ∧ etree.getitem k self' = Some (Node (ns.qn "a:solidFill") [] [])
    ∧ ((∃ ts1 tn ts2 succ,
          successor_tagnames = ts1 ++ tn :: ts2
          ∧ Forall (λ c, tag c ∉ ns.qn <$> ts1) kept
          ∧ kept !! k = Some succ ∧ tag succ = ns.qn tn
          ∧ Forall (λ c, tag c ≠ ns.qn tn) (take k kept))
       ∨ (Forall (λ c, tag c ∉ ns.qn <$> successor_tagnames) kept
          ∧ k = length kept)).
Proof. intros Hnone%find_None. by apply coerce_without_solidFill. Qed.

(** After a coercion the solid fill is found where the call said. *)
Lemma coerce_then_solidFill self :
  let call := CT_ShapeProperties.get_or_change_to_solidFill self in
  CT_ShapeProperties.solidFill call.2 = Some call.1.
Proof.
  simpl. destruct (CT_ShapeProperties.solidFill self) as [i|] eqn:Hsolid.
  - unfold CT_ShapeProperties.get_or_change_to_solidFill.
    by rewrite Hsolid.
  - destruct (coerce_without_solidFill self Hsolid)
      as (k & self' & Hcall & -> & _ & _).
    pose proof (coerce_without_solidFill_le _ _ _ Hsolid Hcall) as Hle.
    rewrite Hcall. simpl. unfold CT_ShapeProperties.solidFill.
    rewrite find_app_None.
    + rewrite find_cons, decide_True by done. simpl.
      rewrite length_take_le by done. f_equal. lia.
    + apply Forall_take, drop_firsts_Forall. by apply find_None.
Qed.

(** C2: a second coercion in a row returns the reference the first one
    returned and leaves the element as the first one left it; when a
    solid fill is already there the call returns it and the element is
    not touched. *)
Theorem get_or_change_to_solidFill_idempotent self :
  let first := CT_ShapeProperties.get_or_change_to_solidFill self in
  let second := CT_ShapeProperties.get_or_change_to_solidFill first.2 in
  second.1 = first.1 ∧ second.2 = first.2
  ∧ match CT_ShapeProperties.solidFill self with
    | Some solidFill => first = (solidFill, self)
    | None => CT_ShapeProperties.solidFill first.2 = Some first.1
    end.
Proof.
  intros first second.
  pose proof (coerce_then_solidFill self) as Hfound. simpl in Hfound.
  fold first in Hfound.
  assert (second = first) as ->.
  { unfold second, CT_ShapeProperties.get_or_change_to_solidFill at 1.
    rewrite Hfound. by destruct first. }
  split_and!; [done..|].
  destruct (CT_ShapeProperties.solidFill self) as [i|] eqn:Hsolid; [|done].
  unfold first, CT_ShapeProperties.get_or_change_to_solidFill.
  by rewrite Hsolid.
Qed.

(** C4, as amended: on a properties element that holds at most one fill
    element, or that holds no solid fill and no two fill elements of one
    type, the coercion leaves exactly one fill element, and the reference
    it returns is a solid fill. *)
Theorem get_or_change_to_solidFill_single_fill self :
  fill_count self ≤ 1
  ∨ (Forall (λ c, tag c ≠ ns.qn "a:solidFill") (children self)
     ∧ ∀ tagname, tagname ∈ other_fill_tagnames →
         length (filter (λ c, tag c = ns.qn tagname) (children self)) ≤ 1) →
  let call := CT_ShapeProperties.get_or_change_to_solidFill self in
  fill_count call.2 = 1
  ∧ ∃ solidFill, etree.getitem call.1 call.2 = Some solidFill
                 ∧ tag solidFill = ns.qn "a:solidFill".
Proof.
  intros Hpre call.
  pose proof (coerce_then_solidFill self) as Hfound. simpl in Hfound.
  fold call in Hfound.
  apply find_Some in Hfound as (solidFill & Hat & Htag & _).
  split; [|by exists solidFill].
  destruct (CT_ShapeProperties.solidFill self) as [i|] eqn:Hsolid.
  - destruct Hpre as [Hone|[Hnone%find_None _]];
      [|unfold CT_ShapeProperties.solidFill in Hsolid; congruence].
    assert (call = (i, self)) as Hcall.
    { unfold call, CT_ShapeProperties.get_or_change_to_solidFill.
      by rewrite Hsolid. }
    rewrite Hcall in *. simpl in *.
    assert (solidFill ∈ filter is_fill (children self)) as Hin.
    { apply list_elem_of_filter. split; [by apply is_fill_solidFill|].
      apply list_elem_of_lookup. by exists i. }
    unfold fill_count in *.
    destruct (filter is_fill (children self)) as [|? [|? ?]];
      [by apply elem_of_nil in Hin|done|simpl in Hone; lia].
  - destruct (coerce_without_solidFill self Hsolid)
      as (k & self' & Hcall & -> & _ & _).
    fold call in Hcall. rewrite Hcall. simpl.
    set (kept := drop_firsts _ _).
    assert (Forall (λ c, ¬ is_fill c) kept) as Hkept.
    { apply find_None in Hsolid.
      assert (Forall (λ c, tag c ∉ ns.qn <$> other_fill_tagnames) kept) as Ho.
      { apply drop_firsts_distinct.
        intros t Ht. change (t ∈ ns.qn <$> other_fill_tagnames) in Ht.
        apply list_elem_of_fmap in Ht as (tagname & -> & Htagname).
        destruct Hpre as [Hone|[_ Hdistinct]]; [|by apply Hdistinct].
        etrans; [|exact Hone]. apply filter_length_mono.
        intros c Hc. apply is_fill_other. rewrite Hc.
        by apply list_elem_of_fmap_2. }
      pose proof (drop_firsts_Forall _ (ns.qn <$> other_fill_tagnames) _ Hsolid)
        as Hs.
      fold kept in Hs. rewrite Forall_forall in Hs, Ho.
      apply Forall_forall. intros c Hc. apply not_is_fill; auto. }
    unfold fill_count. simpl.
    rewrite filter_app, filter_cons_True by by apply is_fill_solidFill.
    rewrite !filter_none; [done|by apply Forall_drop|by apply Forall_take].
Qed.

End fill_properties.

(** ** The geometry guide manager *)
Section guide_facts.
Context `{!Imports}.
Implicit Types (self c avLst : element) (l : list element).

Lemma node_eta self : Node (tag self) (attrib self) (children self) = self.
Proof. by destruct self. Qed.

Lemma at_child_node i f tg a l :
  etree.at_child i f (Node tg a l) = Node tg a (alter f i l).
Proof. done. Qed.

Lemma remove_each_positions t tg a pre l removed :
  CT_PresetGeometry2D.remove_each
    (objectify.positions t (length pre + removed) l) removed
    (Node tg a (pre ++ l)) =
  Node tg a (pre ++ filter (λ c, tag c ≠ t) l).
Proof.
  revert pre removed. induction l as [|c l IH]; intros pre removed; [done|].
  simpl. rewrite filter_cons. destruct (decide (tag c = t)) as [Hc|Hc].
  - rewrite decide_False by (by intros ?). simpl.
    replace (length pre + removed - removed) with (length pre) by lia.
    unfold etree.remove. simpl. rewrite delete_middle.
    replace (S (length pre + removed)) with (length pre + S removed) by lia.
    apply IH.
  - rewrite decide_True by done.
    replace (S (length pre + removed))
      with (length (pre ++ [c]) + removed) by (rewrite length_app; simpl; lia).
    rewrite (cons_middle c pre l), app_assoc, IH.
    by rewrite <- app_assoc.
Qed.

Lemma remove_each_siblings name avLst :
  CT_PresetGeometry2D.remove_each (objectify.siblings name avLst) 0 avLst =
  Node (tag avLst) (attrib avLst)
       (filter (λ c, tag c ≠ objectify.child_tag name avLst) (children avLst)).
Proof.
  unfold objectify.siblings.
  rewrite <- (node_eta avLst) at 3.
  apply (remove_each_positions _ _ _ [] _ 0).
Qed.

Lemma hasattr_false name self :
  objectify.hasattr name self = false →
  filter (λ c, tag c ≠ objectify.child_tag name self) (children self)
  = children self.
Proof.
  unfold objectify.hasattr, objectify.lookup.
  intros Hno%bool_decide_eq_false. apply filter_all, find_None.
  destruct (etree.find _ _); [|done]. by destruct Hno.
Qed.

Lemma add_gd name val avLst :
  (let '(gd, avLst) := core.SubElement "a:gd" avLst in
   let avLst := etree.at_child gd (etree.set "name" name) avLst in
   etree.at_child gd (etree.set "fmla" ("val " +:+ pretty val)) avLst)
  = Node (tag avLst) (attrib avLst) (children avLst ++ [gd_of (name, val)]).
Proof.
  unfold core.SubElement, etree.at_child, etree.append. simpl.
  rewrite list_alter_alter_eq.
  rewrite <- (Nat.add_0_r (length (children avLst))), alter_app_r.
  done.
Qed.

Lemma write_guides guides i tg a l :
  foldl
    (λ self '(name, val),
       etree.at_child i
         (λ avLst,
            let '(gd, avLst) := core.SubElement "a:gd" avLst in
            let avLst := etree.at_child gd (etree.set "name" name) avLst in
            etree.at_child gd
              (etree.set "fmla" ("val " +:+ pretty val)) avLst)
         self)
    (Node tg a l) guides
  = Node tg a
      (alter (λ avLst, Node (tag avLst) (attrib avLst)
                            (children avLst ++ (gd_of <$> guides))) i l).
Proof.
  revert l. induction guides as [|[name val] guides IH]; intros l.
  - simpl. rewrite list_alter_id; [done|].
    intros x. by rewrite app_nil_r, node_eta.
  - cbn [foldl]. rewrite at_child_node, IH, list_alter_alter_eq.
    f_equal. apply list_alter_ext; [|done]. intros x _.
    cbn [compose]. rewrite add_gd. simpl. by rewrite <- app_assoc.
Qed.

Lemma child_tag_drawing name self :
  namespace (tag self) = nsmap "a" →
  objectify.child_tag name self
  = {| namespace := nsmap "a"; localname := name |}.
Proof. unfold objectify.child_tag. by intros ->. Qed.

Lemma find_getitem t self i :
  etree.find t self = Some i →
  ∃ c, etree.getitem i self = Some c ∧ tag c = t.
Proof. intros (c & ? & ? & _)%find_Some. by exists c. Qed.

(** The method does what section 4.1 asks for. *)
Lemma rewrite_guides_eq guides self :
  namespace (tag self) = nsmap "a" →
  CT_PresetGeometry2D.rewrite_guides guides self
  = Ok (with_guides guides self).
Proof.
  intros Hns. unfold CT_PresetGeometry2D.rewrite_guides, with_guides.
  unfold objectify.lookup at 1.
  rewrite (child_tag_drawing "avLst" self Hns).
  change {| namespace := nsmap "a"; localname := "avLst" |}
    with (ns.qn "a:avLst").
  destruct (etree.find (ns.qn "a:avLst") self) as [i|] eqn:Hfind.
  - destruct (find_getitem _ _ _ Hfind) as (avLst & Hat & Htag).
    unfold objectify.getref, objectify.getattr, objectify.lookup.
    rewrite (child_tag_drawing "avLst" self Hns).
    change {| namespace := nsmap "a"; localname := "avLst" |}
      with (ns.qn "a:avLst").
    rewrite Hfind. simpl. rewrite Hat. simpl.
    assert (objectify.child_tag "gd" avLst = ns.qn "a:gd") as Hgd.
    { apply child_tag_drawing. by rewrite Htag. }
    destruct self as [tg a l]. unfold etree.getitem in Hat. simpl in Hat.
    destruct (objectify.hasattr "gd" avLst) eqn:Hhas.
    + rewrite decide_True by done. simpl.
      rewrite !at_child_node, write_guides, list_alter_alter_eq.
      do 2 f_equal. apply list_alter_ext; [|done].
      intros x Hx. assert (x = avLst) as -> by congruence.
      cbn [compose]. rewrite remove_each_siblings, Hgd. done.
    + simpl. rewrite at_child_node, write_guides. do 2 f_equal.
      apply list_alter_ext; [|done].
      intros x Hx. assert (x = avLst) as -> by congruence.
      unfold guides_replaced. rewrite <- Hgd.
      by rewrite (hasattr_false _ _ Hhas).
  - destruct self as [tg a l]. unfold core.SubElement. simpl.
    apply find_None in Hfind. simpl in Hfind.
    unfold objectify.getref, objectify.getattr, objectify.lookup.
    rewrite !(child_tag_drawing "avLst" (Node tg a _)) by done.
    change {| namespace := nsmap "a"; localname := "avLst" |}
      with (ns.qn "a:avLst").
    unfold etree.append. simpl.
    rewrite find_app_None, find_cons, decide_True by done. simpl.
    unfold etree.getitem. simpl.
    rewrite lookup_app_r, Nat.add_0_r, Nat.sub_diag by lia. simpl.
    rewrite write_guides, alter_app_r_alt, Nat.sub_diag by lia. done.
Qed.

Lemma find_alter i f t tg a l :
  (∀ x, tag (f x) = tag x) →
  etree.find t (Node tg a (alter f i l)) = etree.find t (Node tg a l).
Proof.
  intros Hf. revert i. induction l as [|c l IH]; intros i; [by destruct i|].
  destruct i as [|i].
  - change (alter f 0 (c :: l)) with (f c :: l).
    by rewrite !find_cons, Hf.
  - change (alter f (S i) (c :: l)) with (c :: alter f i l).
    by rewrite !find_cons, IH.
Qed.

Lemma gd_of_tag guide : tag (gd_of guide) = ns.qn "a:gd".
Proof. done. Qed.

Lemma guides_replaced_twice g1 g2 avLst :
  guides_replaced g2 (guides_replaced g1 avLst) = guides_replaced g2 avLst.
Proof.
  unfold guides_replaced. simpl. f_equal. f_equal.
  rewrite filter_app, filter_all, (filter_none _ (gd_of <$> g1));
    [apply app_nil_r|..].
  - apply Forall_forall. intros c (g & -> & _)%list_elem_of_fmap.
    by intros ?.
  - apply Forall_forall. by intros c [? _]%list_elem_of_filter.
Qed.

Lemma with_guides_tag guides self : tag (with_guides guides self) = tag self.
Proof. unfold with_guides. by destruct (etree.find _ _). Qed.

(** Rewriting with [g2] after [g1] gives what [g2] alone gives. *)
Lemma with_guides_twice g1 g2 self :
  with_guides g2 (with_guides g1 self) = with_guides g2 self.
Proof.
  destruct self as [tg a l]. unfold with_guides.
  destruct (etree.find _ (Node tg a l)) as [i|] eqn:Hfind.
  - rewrite at_child_node, find_alter, Hfind by done.
    rewrite !at_child_node, list_alter_alter_eq. f_equal.
    apply list_alter_ext; [|done]. intros x _. apply guides_replaced_twice.
  - apply find_None in Hfind. simpl in Hfind. unfold etree.append. simpl.
    rewrite find_app_None, find_cons, decide_True by done. simpl.
    rewrite at_child_node, Nat.add_0_r, alter_app_r_alt, Nat.sub_diag by lia.
    simpl. by rewrite guides_replaced_twice.
Qed.

(** The guides read back from a rewritten container. *)
Lemma gd_guides_replaced guides avLst :
  namespace (tag avLst) = nsmap "a" →
  (first_gd ← objectify.getattr "gd" (guides_replaced guides avLst);
   Ok (objectify.iter first_gd (guides_replaced guides avLst)))
  = match guides with
    | [] => Raise AttributeError
    | _ => Ok (gd_of <$> guides)
    end.
Proof.
  intros Hns. unfold objectify.getattr, objectify.lookup.
  rewrite (child_tag_drawing "gd" (guides_replaced guides avLst)) by done.
  change {| namespace := nsmap "a"; localname := "gd" |} with (ns.qn "a:gd").
  unfold guides_replaced, etree.getitem. simpl.
  set (kept := filter _ (children avLst)).
  assert (Forall (λ c, tag c ≠ ns.qn "a:gd") kept) as Hkept.
  { apply Forall_forall. by intros c [? _]%list_elem_of_filter. }
  rewrite find_app_None by done.
  destruct guides as [|guide guides]; simpl; [done|].
  rewrite find_cons, decide_True by done. simpl.
  rewrite lookup_app_r, Nat.add_0_r, Nat.sub_diag by lia. simpl.
  unfold objectify.iter. simpl.
  rewrite filter_app, (filter_none _ kept).
  - rewrite filter_cons_True, filter_all; [done| |done].
    apply Forall_forall. by intros c (g & -> & _)%list_elem_of_fmap.
  - eapply Forall_impl; [exact Hkept|]. by simpl.
Qed.

Lemma gd_with_guides guides self :
  namespace (tag self) = nsmap "a" →
  CT_PresetGeometry2D.gd (with_guides guides self) = Ok (gd_of <$> guides).
Proof.
  intros Hns. unfold CT_PresetGeometry2D.gd.
  assert (∃ avLst, objectify.getattr "avLst" (with_guides guides self)
                   = Ok (guides_replaced guides avLst)
                   ∧ namespace (tag avLst) = nsmap "a")
    as (avLst & -> & HnsA).
  { unfold objectify.getattr, objectify.lookup.
    rewrite (child_tag_drawing "avLst" (with_guides guides self))
      by by rewrite with_guides_tag.
    change {| namespace := nsmap "a"; localname := "avLst" |}
      with (ns.qn "a:avLst").
    destruct self as [tg a l]. unfold with_guides.
    destruct (etree.find _ (Node tg a l)) as [i|] eqn:Hfind.
    - destruct (find_getitem _ _ _ Hfind) as (avLst & Hat & Htag).
      exists avLst. rewrite at_child_node, find_alter, Hfind by done.
      unfold etree.getitem in *. simpl in *.
      rewrite list_lookup_alter_eq, Hat. by rewrite Htag.
    - exists (core.Element "a:avLst").
      apply find_None in Hfind. simpl in Hfind. unfold etree.append. simpl.
      rewrite find_app_None, find_cons, decide_True by done. simpl.
      unfold etree.getitem. simpl.
      by rewrite lookup_app_r, Nat.add_0_r, Nat.sub_diag by lia. }
  cbn [mbind result_bind].
  change (match objectify.getattr "gd" (guides_replaced guides avLst) with
          | Ok a => Ok (objectify.iter a (guides_replaced guides avLst))
          | Raise e => Raise e
          end)
    with (first_gd ← objectify.getattr "gd" (guides_replaced guides avLst);
          Ok (objectify.iter first_gd (guides_replaced guides avLst))).
  rewrite gd_guides_replaced by done. by destruct guides.
Qed.

End guide_facts.

Section guide_properties.
Context `{!Imports}.
Implicit Types (self : element) (g : list (string * Z)).

(** C3: on a preset-geometry element, rewriting the guides with [g1] and
    then with [g2] succeeds and leaves what rewriting with [g2] alone
    leaves: the guides read back are one [gd] element per entry of [g2],
    in order, each with the attributes [name] and [fmla = val <value>],
    and none from [g1].  A geometry element without guide-list container
    gets one appended after its children, so it is the sole child of a
    geometry element that had none. *)
Theorem rewrite_guides_round_trip self g1 g2 :
  tag self = ns.qn "a:prstGeom" →
  ∃ self1 self2,
    CT_PresetGeometry2D.rewrite_guides g1 self = Ok self1
    ∧ CT_PresetGeometry2D.rewrite_guides g2 self1 = Ok self2
    ∧ CT_PresetGeometry2D.rewrite_guides g2 self = Ok self2
    ∧ CT_PresetGeometry2D.gd self2 = Ok (gd_of <$> g2)
    ∧ (etree.find (ns.qn "a:avLst") self = None →
       children self2
       = children self ++ [Node (ns.qn "a:avLst") [] (gd_of <$> g2)])
    ∧ (children self = [] →
       children self2 = [Node (ns.qn "a:avLst") [] (gd_of <$> g2)]).
Proof.
  intros Htag.
  assert (namespace (tag self) = nsmap "a") as Hns by by rewrite Htag.
  exists (with_guides g1 self), (with_guides g2 self).
  assert (etree.find (ns.qn "a:avLst") self = None →
          children (with_guides g2 self)
          = children self ++ [Node (ns.qn "a:avLst") [] (gd_of <$> g2)])
    as Hnew.
  { intros Hnone. unfold with_guides. by rewrite Hnone. }
  split_and!.
  - by apply rewrite_guides_eq.
  - rewrite rewrite_guides_eq by by rewrite with_guides_tag.
    by rewrite with_guides_twice.
  - by apply rewrite_guides_eq.
  - by apply gd_with_guides.
  - done.
  - intros Hnil. rewrite Hnew; [by rewrite Hnil|].
    apply find_None. rewrite Hnil. constructor.
Qed.

(** Without guide-list container the guides read as the empty sequence. *)
Lemma gd_without_avLst self :
  tag self = ns.qn "a:prstGeom" →
  etree.find (ns.qn "a:avLst") self = None →
  CT_PresetGeometry2D.gd self = Ok [].
Proof.
  intros Htag Hnone. unfold CT_PresetGeometry2D.gd.
  assert (objectify.getattr "avLst" self = Raise AttributeError) as ->; [|done].
  unfold objectify.getattr, objectify.lookup.
  rewrite (child_tag_drawing "avLst" self) by by rewrite Htag.
  change {| namespace := nsmap "a"; localname := "avLst" |}
    with (ns.qn "a:avLst").
  by rewrite Hnone.
Qed.

End guide_properties.

(** ** The shape classifier *)
Section classifier_properties.
Context `{!Imports}.
Implicit Types (sp spPr : element) (txBox : option string).

(** Both predicates on a shape whose [spPr] and [nvSpPr/cNvSpPr] are
    there, by the value of the [txBox] attribute. *)
Lemma classify sp spPr txBox :
  objectify.getattr "spPr" sp = Ok spPr →
  txBox_of sp = Ok txBox →
  CT_Shape.is_textbox sp
  = Ok (bool_decide (txBox ∈ [Some "true"; Some "1"]))
  ∧ CT_Shape.is_autoshape sp
    = Ok (bool_decide (is_Some (core.child spPr "a:prstGeom"))
          && negb (bool_decide (txBox ∈ [Some "true"; Some "1"]))).
Proof.
  unfold txBox_of, CT_Shape.is_textbox, CT_Shape.is_autoshape.
  intros -> Hflag. simpl.
  destruct (objectify.getattr "nvSpPr" sp) as [nvSpPr|]; [|done].
  simpl in *.
  destruct (objectify.getattr "cNvSpPr" nvSpPr) as [cNvSpPr|]; [|done].
  simpl in *. injection Hflag as ->.
  pose proof (bool_decide_decide (txBox ∈ [Some "true"; Some "1"])) as Hbool.
  destruct (decide (txBox ∈ [Some "true"; Some "1"])) as [Hflag|Hflag];
    rewrite Hbool.
  - simpl. rewrite andb_false_r. split; [done|]. by destruct (decide _).
  - simpl. rewrite andb_true_r. split; [done|].
    by destruct (core.child spPr "a:prstGeom").
Qed.

(** The two predicates are never true together, whatever the element. *)
Lemma autoshape_excludes_textbox sp :
  ¬ (CT_Shape.is_autoshape sp = Ok true ∧ CT_Shape.is_textbox sp = Ok true).
Proof.
  unfold CT_Shape.is_autoshape, CT_Shape.is_textbox. intros [Hauto Htext].
  destruct (objectify.getattr "spPr" sp) as [spPr|]; simpl in *; [|done].
  destruct (decide (core.child spPr "a:prstGeom" = None)); [done|].
  destruct (objectify.getattr "nvSpPr" sp) as [nvSpPr|]; simpl in *; [|done].
  destruct (objectify.getattr "cNvSpPr" nvSpPr) as [cNvSpPr|];
    simpl in *; [|done].
  by destruct (decide (etree.get "txBox" cNvSpPr ∈ [Some "true"; Some "1"])).
Qed.

Lemma txBox_flag txBox :
  txBox ∈ [Some "true"; Some "1"] ↔ txBox = Some "1" ∨ txBox = Some "true".
Proof. rewrite !elem_of_cons, elem_of_nil. tauto. Qed.

(** C5: on a shape element, [is_autoshape] is true exactly when the
    properties hold a preset geometry and the shape is not flagged as a
    text box, [is_textbox] is true exactly when the [txBox] attribute is
    true-like, and the two are never true together. *)
Theorem classification_consistent sp spPr txBox :
  objectify.getattr "spPr" sp = Ok spPr →
  txBox_of sp = Ok txBox →
  ∃ autoshape textbox,
    CT_Shape.is_autoshape sp = Ok autoshape
    ∧ CT_Shape.is_textbox sp = Ok textbox
    ∧ (autoshape = true ↔
       is_Some (core.child spPr "a:prstGeom") ∧ textbox = false)
    ∧ (textbox = true ↔ txBox = Some "1" ∨ txBox = Some "true")
    ∧ ¬ (autoshape = true ∧ textbox = true).
Proof.
  intros HspPr Hflag.
  destruct (classify sp spPr txBox HspPr Hflag) as [-> ->].
  eexists _, _. split_and!; [done..| | |].
  - rewrite andb_true_iff, negb_true_iff, bool_decide_eq_true. done.
  - by rewrite bool_decide_eq_true, txBox_flag.
  - rewrite andb_true_iff, negb_true_iff. intros [[_ ?] ?]. congruence.
Qed.

(** C10: the flag is read by exact comparison with ['1'] and ['true'];
    with any other value, or without the attribute, the shape is not a
    text box, and it is an auto shape when it has a preset geometry. *)
Theorem is_textbox_exact_match sp spPr txBox :
  objectify.getattr "spPr" sp = Ok spPr →
  txBox_of sp = Ok txBox →
  (CT_Shape.is_textbox sp = Ok true →
   txBox = Some "1" ∨ txBox = Some "true")
  ∧ (txBox ≠ Some "1" → txBox ≠ Some "true" →
     CT_Shape.is_textbox sp = Ok false
     ∧ (is_Some (core.child spPr "a:prstGeom") →
        CT_Shape.is_autoshape sp = Ok true))
  ∧ (txBox ∈ [Some "TRUE"; Some "True"; Some "0"; Some "false"; None] →
     CT_Shape.is_textbox sp = Ok false).
Proof.
  intros HspPr Hflag.
  destruct (classify sp spPr txBox HspPr Hflag) as [-> ->].
  split_and!.
  - intros [= Htrue]. by apply bool_decide_eq_true, txBox_flag in Htrue.
  - intros ? ?.
    rewrite (bool_decide_eq_false_2 (txBox ∈ _))
      by (rewrite txBox_flag; tauto).
    split; [done|]. intros ?. by rewrite bool_decide_eq_true_2.
  - intros Hin. rewrite bool_decide_eq_false_2; [done|].
    rewrite txBox_flag.
    intros [-> | ->];
      repeat (apply elem_of_cons in Hin as [Hin|Hin]; [discriminate|]);
      by apply elem_of_nil in Hin.
Qed.

Lemma child_None e child_tagname :
  Forall (λ c, tag c ≠ ns.qn child_tagname) (children e) →
  core.child e child_tagname = None.
Proof. intros Hno%find_None. unfold core.child. by rewrite Hno. Qed.

(** C8: what is absent reads as absent.  Without guide-list container
    the guides are the empty sequence; without solid-fill child the
    current fill is [None]; without preset geometry in the properties the
    preset name is [None]. *)
Theorem absent_reads_as_none geom spPr sp sp_spPr :
  tag geom = ns.qn "a:prstGeom" →
  Forall (λ c, tag c ≠ ns.qn "a:avLst") (children geom) →
  Forall (λ c, tag c ≠ ns.qn "a:solidFill") (children spPr) →
  objectify.getattr "spPr" sp = Ok sp_spPr →
  Forall (λ c, tag c ≠ ns.qn "a:prstGeom") (children sp_spPr) →
  CT_PresetGeometry2D.gd geom = Ok []
  ∧ CT_ShapeProperties.solidFill spPr = None
  ∧ CT_Shape.prst sp = Ok None.
Proof.
  intros Htag HavLst Hfill HspPr Hgeom. split_and!.
  - apply gd_without_avLst; [done|]. by apply find_None.
  - by apply find_None.
  - unfold CT_Shape.prst. rewrite HspPr. simpl.
    by rewrite child_None.
Qed.

End classifier_properties.

(** ** The shape builder *)
Section builder_properties.
Context `{!Imports}.

Lemma bind_Ok {A B} (m : result A) (f : A → result B) x r :
  m = Ok x → f x = r → m ≫= f = r.
Proof. by intros -> <-. Qed.

Lemma getattr_node name tg a l i c :
  etree.find {| namespace := namespace tg; localname := name |} (Node tg a l)
  = Some i →
  l !! i = Some c →
  objectify.getattr name (Node tg a l) = Ok c.
Proof.
  intros Hfind Hat.
  unfold objectify.getattr, objectify.lookup, objectify.child_tag,
    etree.getitem.
  simpl. rewrite Hfind. simpl. by rewrite Hat.
Qed.

Lemma with_attr_node name body tg a l i c c' :
  etree.find {| namespace := namespace tg; localname := name |} (Node tg a l)
  = Some i →
  l !! i = Some c →
  body c = Ok c' →
  objectify.with_attr name body (Node tg a l) = Ok (Node tg a (<[i := c']> l)).
Proof.
  intros Hfind Hat Hbody. unfold objectify.with_attr.
  rewrite (getattr_node _ _ _ _ _ _ Hfind Hat).
  unfold objectify.getref, objectify.lookup, objectify.child_tag.
  simpl. rewrite Hfind. simpl. rewrite Hbody. simpl.
  by rewrite at_child_node, list_insert_alter.
Qed.

Lemma with_item_node t body tg a l i c c' :
  etree.find t (Node tg a l) = Some i →
  l !! i = Some c →
  body c = Ok c' →
  objectify.with_item t body (Node tg a l) = Ok (Node tg a (<[i := c']> l)).
Proof.
  intros Hfind Hat Hbody.
  unfold objectify.with_item, objectify.getitem, etree.getitem.
  rewrite Hfind. simpl. rewrite Hat, Hbody. simpl.
  by rewrite at_child_node, list_insert_alter.
Qed.

Ltac tidy :=
  cbn [insert list_insert etree.append etree.set etree.set_item
       core.SubElement core.Element snd fst children tag attrib app length].

(** Finds a child of a written-out child list by its tag. *)
Ltac find_child :=
  tidy;
  repeat (rewrite find_cons;
          first [ rewrite decide_True by reflexivity
                | rewrite decide_False by (simpl; discriminate) ]);
  rewrite ?find_nil; reflexivity.

(** Runs the statements that work on an attribute in place. *)
Ltac eval_with :=
  lazymatch goal with
  | |- objectify.with_attr _ _ _ = _ =>
      eapply with_attr_node; [find_child | reflexivity | eval_with]
  | |- objectify.with_item _ _ _ = _ =>
      eapply with_item_node; [find_child | reflexivity | eval_with]
  | |- objectify.getattr _ _ = _ =>
      eapply getattr_node; [find_child | reflexivity]
  | |- _ => reflexivity
  end.

(** The builder returns the fragment of section 6. *)
Lemma new_placeholder_sp_eq id_ name ph_type orient sz idx :
  parse_xml_bytes (CT_Shape._ph_sp_tmpl id_ name)
  = Ok (CT_Shape._ph_sp_tree id_ name) →
  CT_Shape.new_placeholder_sp id_ name ph_type orient sz idx
  = Ok (placeholder_fragment id_ name ph_type orient sz idx).
Proof.
  intros Hparse. unfold CT_Shape.new_placeholder_sp. rewrite Hparse.
  unfold CT_Shape._ph_sp_tree. cbn [mbind result_bind].
  eapply bind_Ok; [eval_with|]. tidy.
  eapply bind_Ok; [eval_with|]. tidy.
  eapply bind_Ok; [eval_with|]. tidy.
  unfold placeholder_fragment, ph_attrib, text_placeholder_types.
  repeat case_decide; reflexivity.
Qed.

Lemma ph_of_fragment id_ name ph_type orient sz idx :
  ph_of (placeholder_fragment id_ name ph_type orient sz idx)
  = Ok (Node (ns.qn "p:ph") (ph_attrib ph_type orient sz idx) []).
Proof.
  unfold ph_of, placeholder_fragment. cbn [mbind result_bind].
  eapply bind_Ok; [eval_with|].
  eapply bind_Ok; [eval_with|].
  eval_with.
Qed.

Lemma ph_attrib_defaults :
  ph_attrib PH_TYPE_OBJ PH_ORIENT_HORZ PH_SZ_FULL 0 = [].
Proof. unfold ph_attrib. by rewrite !decide_False by (by intros ?). Qed.

Lemma ph_attrib_type ph_type :
  ph_type ≠ PH_TYPE_OBJ →
  ph_attrib ph_type PH_ORIENT_HORZ PH_SZ_FULL 0 = [("type", ph_type)].
Proof.
  intros. unfold ph_attrib.
  by rewrite decide_True, !decide_False by (done || by intros ?).
Qed.

(** C6, as amended: for an id and a name with which the parser reads the
    template as it is written, the placeholder descriptor gets an
    attribute only for an argument that differs from its default.  With
    the object type, horizontal orientation, full size and index 0 the
    [<p:ph>] element has no attribute at all; with the title type and
    the other three at their defaults it has the single attribute
    [type]. *)
Theorem new_placeholder_sp_sparse_attributes id_ name :
  parse_xml_bytes (CT_Shape._ph_sp_tmpl id_ name)
  = Ok (CT_Shape._ph_sp_tree id_ name) →
  PH_TYPE_TITLE ≠ PH_TYPE_OBJ →
  (∀ ph_type orient sz idx,
     ∃ sp, CT_Shape.new_placeholder_sp id_ name ph_type orient sz idx = Ok sp
           ∧ ph_of sp
             = Ok (Node (ns.qn "p:ph") (ph_attrib ph_type orient sz idx) []))
  ∧ (∃ sp, CT_Shape.new_placeholder_sp id_ name
             PH_TYPE_OBJ PH_ORIENT_HORZ PH_SZ_FULL 0 = Ok sp
           ∧ ph_of sp = Ok (Node (ns.qn "p:ph") [] []))
  ∧ (∃ sp, CT_Shape.new_placeholder_sp id_ name
             PH_TYPE_TITLE PH_ORIENT_HORZ PH_SZ_FULL 0 = Ok sp
           ∧ ph_of sp = Ok (Node (ns.qn "p:ph") [("type", PH_TYPE_TITLE)] [])).
Proof.
  intros Hparse Htitle.
  assert (∀ ph_type orient sz idx,
     ∃ sp, CT_Shape.new_placeholder_sp id_ name ph_type orient sz idx = Ok sp
           ∧ ph_of sp
             = Ok (Node (ns.qn "p:ph") (ph_attrib ph_type orient sz idx) []))
    as Hall.
  { intros. eexists. split; [by apply new_placeholder_sp_eq|].
    apply ph_of_fragment. }
  split_and!; [done| |].
  - destruct (Hall PH_TYPE_OBJ PH_ORIENT_HORZ PH_SZ_FULL 0%Z) as (sp & ? & Hph).
    rewrite ph_attrib_defaults in Hph. eauto.
  - destruct (Hall PH_TYPE_TITLE PH_ORIENT_HORZ PH_SZ_FULL 0%Z) as (sp & ? & Hph).
    rewrite ph_attrib_type in Hph by done. eauto.
Qed.

Lemma deannotate_tag e : tag (objectify.deannotate e) = tag e.
Proof. by destruct e. Qed.

(** C7: the builder appends a text body exactly for the title,
    centered-title, subtitle, body and object placeholder types; for any
    other type the shape has its two children and no text body. *)
Theorem new_placeholder_sp_text_body id_ name ph_type orient sz idx :
  parse_xml_bytes (CT_Shape._ph_sp_tmpl id_ name)
  = Ok (CT_Shape._ph_sp_tree id_ name) →
  tag new_txBody = ns.qn "p:txBody" →
  ∃ sp,
    CT_Shape.new_placeholder_sp id_ name ph_type orient sz idx = Ok sp
    ∧ (is_Some (core.child sp "p:txBody") ↔
       ph_type ∈ text_placeholder_types)
    ∧ (ph_type ∈ text_placeholder_types →
       length (children sp) = 3
       ∧ last (children sp) = Some (objectify.deannotate new_txBody))
    ∧ (ph_type ∉ text_placeholder_types → length (children sp) = 2).
Proof.
  intros Hparse Htag. eexists. split; [by apply new_placeholder_sp_eq|].
  unfold placeholder_fragment, core.child, etree.getitem.
  destruct (decide (ph_type ∈ text_placeholder_types)) as [Hin|Hout]; simpl.
  - split_and!; [|done..].
    rewrite !find_cons, !decide_False by (simpl; discriminate).
    rewrite decide_True by by rewrite deannotate_tag.
    simpl. split; [done|]. by eexists.
  - split_and!; [|done..].
    rewrite !find_cons, !decide_False by (simpl; discriminate).
    simpl. split; [|done]. by intros [? [=]].
Qed.

End builder_properties.

(** ** The placeholder collection *)
Section collection_properties.
Import _LayoutPlaceholders.

Lemma scan_first_match {D} (index : nat) (default : D) placeholders :
  (∃ pre placeholder post,
     placeholders = pre ++ placeholder :: post
     ∧ idx placeholder = index
     ∧ Forall (λ q, idx q ≠ index) pre
     ∧ scan index default placeholders = inl placeholder)
  ∨ (Forall (λ q, idx q ≠ index) placeholders
     ∧ scan index default placeholders = inr default).
Proof.
  induction placeholders as [|q placeholders IH]; simpl.
  - right. split; [constructor|done].
  - case_decide as Hq.
    + left. exists [], q, placeholders. split_and!; [done..|constructor|done].
    + destruct IH as [(pre & found & post & -> & ? & ? & ?)|[? ?]].
      * left. exists (q :: pre), found, post.
        split_and!; [done..|by constructor|done].
      * right. split; [by constructor|done].
Qed.

(** C9: [get] returns the first placeholder, in the order of [all], whose
    resolved index is the one asked for, an absent index attribute
    counting as zero; when no placeholder has that index it returns the
    default it was given. *)
Theorem get_first_match_or_default {D} (index : nat) (default : D)
    (shape_tree : list ShapeElement) :
  (∃ pre placeholder post,
     all shape_tree = pre ++ placeholder :: post
     ∧ idx placeholder = index
     ∧ Forall (λ q, idx q ≠ index) pre
     ∧ get index default shape_tree = inl placeholder)
  ∨ (Forall (λ q, idx q ≠ index) (all shape_tree)
     ∧ get index default shape_tree = inr default).
Proof. apply scan_first_match. Qed.

End collection_properties.

(** ** The properties on the sample documents *)
Section on_samples.
#[local] Existing Instance ooxml.

Lemma get_or_change_to_solidFill_inserts_witness :
  Forall (λ c, tag c ≠ ns.qn "a:solidFill") (children sample.spPr_gradFill_ln)
  ∧ ∃ k self',
      CT_ShapeProperties.get_or_change_to_solidFill sample.spPr_gradFill_ln
      = (k, self')
      ∧ etree.getitem k self' = Some (Node (ns.qn "a:solidFill") [] []).
Proof.
  assert (Forall (λ c, tag c ≠ ns.qn "a:solidFill")
                 (children sample.spPr_gradFill_ln))
    as Hnone by (simpl; repeat constructor; vm_compute; discriminate).
  split; [exact Hnone|].
  destruct (get_or_change_to_solidFill_inserts sample.spPr_gradFill_ln Hnone)
    as (k & self' & Hcall & _ & Hat & _).
  exists k, self'. exact (conj Hcall Hat).
Defined.

Example coerce_gradFill_ln :
  CT_ShapeProperties.get_or_change_to_solidFill sample.spPr_gradFill_ln
  = (0, sample.p "spPr" [] [sample.a "solidFill" [] []; sample.a "ln" [] []]).
Proof. reflexivity. Qed.

Lemma rewrite_guides_round_trip_witness :
  tag sample.prstGeom_roundRect = ns.qn "a:prstGeom"
  ∧ ∃ self1 self2,
      CT_PresetGeometry2D.rewrite_guides [("adj", 100%Z)]
        sample.prstGeom_roundRect = Ok self1
      ∧ CT_PresetGeometry2D.rewrite_guides
          [("adj1", 25000%Z); ("adj2", (-5)%Z)] self1 = Ok self2
      ∧ CT_PresetGeometry2D.gd self2
        = Ok (gd_of <$> [("adj1", 25000%Z); ("adj2", (-5)%Z)]).
Proof.
  assert (tag sample.prstGeom_roundRect = ns.qn "a:prstGeom")
    as Htag by reflexivity.
  split; [exact Htag|].
  destruct (rewrite_guides_round_trip sample.prstGeom_roundRect
              [("adj", 100%Z)] [("adj1", 25000%Z); ("adj2", (-5)%Z)] Htag)
    as (self1 & self2 & Hfirst & Hsecond & _ & Hgd & _).
  exists self1, self2. exact (conj Hfirst (conj Hsecond Hgd)).
Defined.

Example rewrite_guides_twice :
  (CT_PresetGeometry2D.rewrite_guides [("adj", 100%Z)]
     sample.prstGeom_roundRect
   ≫= CT_PresetGeometry2D.rewrite_guides [("adj1", 25000%Z); ("adj2", (-5)%Z)])
  = Ok (sample.a "prstGeom" [("prst", "roundRect")]
          [sample.a "avLst" []
             [ sample.a "gd" [("name", "adj1"); ("fmla", "val 25000")] [];
               sample.a "gd" [("name", "adj2"); ("fmla", "val -5")] [] ]]).
Proof. vm_compute. reflexivity. Qed.

(** C4 as the claim has it fails: with two gradient fills the coercion
    takes one away and adds the solid fill, and two fills remain. *)
Lemma get_or_change_to_solidFill_duplicate_fill :
  ¬ fill_count
      (CT_ShapeProperties.get_or_change_to_solidFill
         sample.spPr_two_gradFill).2 ≤ 1.
Proof. vm_compute. lia. Qed.

Example coerce_two_gradFill :
  CT_ShapeProperties.get_or_change_to_solidFill sample.spPr_two_gradFill
  = (1, sample.p "spPr" []
          [sample.a "gradFill" [] []; sample.a "solidFill" [] []]).
Proof. reflexivity. Qed.

Lemma get_or_change_to_solidFill_single_fill_witness :
  fill_count sample.spPr_gradFill_ln ≤ 1
  ∧ fill_count
      (CT_ShapeProperties.get_or_change_to_solidFill
         sample.spPr_gradFill_ln).2 = 1.
Proof.
  assert (fill_count sample.spPr_gradFill_ln ≤ 1) as Hone
    by (vm_compute; apply le_n).
  split; [exact Hone|].
  exact (proj1 (get_or_change_to_solidFill_single_fill _ (or_introl Hone))).
Defined.

Lemma classification_consistent_witness :
  objectify.getattr "spPr" sample.sp_autoshape
  = Ok (sample.p "spPr" [] [sample.prstGeom_roundRect])
  ∧ txBox_of sample.sp_autoshape = Ok None
  ∧ ∃ autoshape textbox,
      CT_Shape.is_autoshape sample.sp_autoshape = Ok autoshape
      ∧ CT_Shape.is_textbox sample.sp_autoshape = Ok textbox
      ∧ ¬ (autoshape = true ∧ textbox = true).
Proof.
  assert (objectify.getattr "spPr" sample.sp_autoshape
          = Ok (sample.p "spPr" [] [sample.prstGeom_roundRect]))
    as HspPr by reflexivity.
  assert (txBox_of sample.sp_autoshape = Ok None) as Hflag by reflexivity.
  split; [exact HspPr|]. split; [exact Hflag|].
  destruct (classification_consistent _ _ _ HspPr Hflag)
    as (autoshape & textbox & Hauto & Htext & _ & _ & Hnot).
  exists autoshape, textbox. exact (conj Hauto (conj Htext Hnot)).
Defined.

Example autoshape_is_no_textbox :
  CT_Shape.is_autoshape sample.sp_autoshape = Ok true
  ∧ CT_Shape.is_textbox sample.sp_autoshape = Ok false.
Proof. split; reflexivity. Qed.

Lemma is_textbox_exact_match_witness :
  objectify.getattr "spPr" sample.sp_txBox_upper
  = Ok (sample.p "spPr" [] [sample.prstGeom_roundRect])
  ∧ txBox_of sample.sp_txBox_upper = Ok (Some "TRUE")
  ∧ CT_Shape.is_textbox sample.sp_txBox_upper = Ok false
  ∧ CT_Shape.is_autoshape sample.sp_txBox_upper = Ok true.
Proof.
  assert (objectify.getattr "spPr" sample.sp_txBox_upper
          = Ok (sample.p "spPr" [] [sample.prstGeom_roundRect]))
    as HspPr by reflexivity.
  assert (txBox_of sample.sp_txBox_upper = Ok (Some "TRUE"))
    as Hflag by reflexivity.
  split; [exact HspPr|]. split; [exact Hflag|].
  destruct (is_textbox_exact_match _ _ _ HspPr Hflag) as (_ & Hother & _).
  destruct Hother as [Htext Hauto]; [discriminate..|].
  split; [exact Htext|]. apply Hauto. eexists. reflexivity.
Defined.

Lemma absent_reads_as_none_witness :
  tag sample.prstGeom_bare = ns.qn "a:prstGeom"
  ∧ Forall (λ c, tag c ≠ ns.qn "a:avLst") (children sample.prstGeom_bare)
  ∧ Forall (λ c, tag c ≠ ns.qn "a:solidFill")
           (children sample.spPr_gradFill_ln)
  ∧ objectify.getattr "spPr" sample.sp_no_geometry
    = Ok (sample.p "spPr" [] [])
  ∧ Forall (λ c, tag c ≠ ns.qn "a:prstGeom")
           (children (sample.p "spPr" [] []))
  ∧ CT_PresetGeometry2D.gd sample.prstGeom_bare = Ok []
  ∧ CT_ShapeProperties.solidFill sample.spPr_gradFill_ln = None
  ∧ CT_Shape.prst sample.sp_no_geometry = Ok None.
Proof.
  assert (tag sample.prstGeom_bare = ns.qn "a:prstGeom")
    as Htag by reflexivity.
  assert (Forall (λ c, tag c ≠ ns.qn "a:avLst")
                 (children sample.prstGeom_bare)) as HavLst
    by (simpl; constructor).
  assert (Forall (λ c, tag c ≠ ns.qn "a:solidFill")
                 (children sample.spPr_gradFill_ln)) as Hfill
    by (simpl; repeat constructor; vm_compute; discriminate).
  assert (objectify.getattr "spPr" sample.sp_no_geometry
          = Ok (sample.p "spPr" [] [])) as HspPr by reflexivity.
  assert (Forall (λ c, tag c ≠ ns.qn "a:prstGeom")
                 (children (sample.p "spPr" [] []))) as Hgeom
    by (simpl; constructor).
  pose proof (absent_reads_as_none _ _ _ _ Htag HavLst Hfill HspPr Hgeom)
    as Habsent.
  exact (conj Htag (conj HavLst (conj Hfill (conj HspPr (conj Hgeom Habsent))))).
Defined.

Lemma new_placeholder_sp_sparse_attributes_witness :
  parse_xml_bytes (CT_Shape._ph_sp_tmpl 2 "Title 1")
  = Ok (CT_Shape._ph_sp_tree 2 "Title 1")
  ∧ PH_TYPE_TITLE ≠ PH_TYPE_OBJ
  ∧ (∃ sp, CT_Shape.new_placeholder_sp 2 "Title 1"
             PH_TYPE_OBJ PH_ORIENT_HORZ PH_SZ_FULL 0 = Ok sp
           ∧ ph_of sp = Ok (Node (ns.qn "p:ph") [] []))
  ∧ (∃ sp, CT_Shape.new_placeholder_sp 2 "Title 1"
             PH_TYPE_TITLE PH_ORIENT_HORZ PH_SZ_FULL 0 = Ok sp
           ∧ ph_of sp = Ok (Node (ns.qn "p:ph") [("type", "title")] [])).
Proof.
  assert (parse_xml_bytes (CT_Shape._ph_sp_tmpl 2 "Title 1")
          = Ok (CT_Shape._ph_sp_tree 2 "Title 1")) as Hparse
    by (vm_compute; reflexivity).
  assert (PH_TYPE_TITLE ≠ PH_TYPE_OBJ) as Htitle by (simpl; discriminate).
  split; [exact Hparse|]. split; [exact Htitle|].
  exact (proj2 (new_placeholder_sp_sparse_attributes 2 "Title 1" Hparse Htitle)).
Defined.

(** C6 as the claim has it fails: the name is copied into the template
    as it is, and with an ampersand in it the text is no XML document;
    the parser raises and no shape is built. *)
Lemma new_placeholder_sp_unescaped_name :
  ¬ ∃ sp, CT_Shape.new_placeholder_sp 2 "R&D"
            PH_TYPE_OBJ PH_ORIENT_HORZ PH_SZ_FULL 0 = Ok sp
          ∧ ph_of sp = Ok (Node (ns.qn "p:ph") [] []).
Proof. intros (sp & Hnew & _). vm_compute in Hnew. discriminate. Qed.

Example placeholder_named_with_ampersand :
  CT_Shape.new_placeholder_sp 2 "R&D" "obj" "horz" "full" 0
  = Raise XMLSyntaxError.
Proof. vm_compute. reflexivity. Qed.

Example title_placeholder :
  CT_Shape.new_placeholder_sp 2 "Title 1" "title" "horz" "full" 0
  = Ok (sample.p "sp" []
          [ sample.p "nvSpPr" []
              [ sample.p "cNvPr" [("id", "2"); ("name", "Title 1")] [];
                sample.p "cNvSpPr" []
                  [sample.a "spLocks" [("noGrp", "1")] []];
                sample.p "nvPr" [] [sample.p "ph" [("type", "title")] []] ];
            sample.p "spPr" [] [];
            new_txBody ]).
Proof. vm_compute. reflexivity. Qed.

Lemma new_placeholder_sp_text_body_witness :
  parse_xml_bytes (CT_Shape._ph_sp_tmpl 3 "Picture 2")
  = Ok (CT_Shape._ph_sp_tree 3 "Picture 2")
  ∧ tag new_txBody = ns.qn "p:txBody"
  ∧ ∃ sp, CT_Shape.new_placeholder_sp 3 "Picture 2" "pic" "horz" "full" 1
          = Ok sp
          ∧ length (children sp) = 2.
Proof.
  assert (parse_xml_bytes (CT_Shape._ph_sp_tmpl 3 "Picture 2")
          = Ok (CT_Shape._ph_sp_tree 3 "Picture 2")) as Hparse
    by (vm_compute; reflexivity).
  assert (tag new_txBody = ns.qn "p:txBody") as Htag by reflexivity.
  split; [exact Hparse|]. split; [exact Htag|].
  destruct (new_placeholder_sp_text_body 3 "Picture 2" "pic" "horz" "full" 1
              Hparse Htag) as (sp & Hsp & _ & _ & Hnone).
  exists sp. split; [exact Hsp|]. apply Hnone.
  apply (bool_decide_unpack _). vm_compute. exact I.
Defined.

Example picture_placeholder :
  CT_Shape.new_placeholder_sp 3 "Picture 2" "pic" "horz" "full" 1
  = Ok (sample.p "sp" []
          [ sample.p "nvSpPr" []
              [ sample.p "cNvPr" [("id", "3"); ("name", "Picture 2")] [];
                sample.p "cNvSpPr" []
                  [sample.a "spLocks" [("noGrp", "1")] []];
                sample.p "nvPr" []
                  [sample.p "ph" [("type", "pic"); ("idx", "1")] []] ];
            sample.p "spPr" [] [] ]).
Proof. vm_compute. reflexivity. Qed.

(** The scenarios of section 8 on the sample layout. *)
Example get_missing_index :
  _LayoutPlaceholders.get 7 "none-found" sample.layout_shapes
  = inr "none-found".
Proof. reflexivity. Qed.

Example get_index_1 :
  _LayoutPlaceholders.shape_name
  <$> sum_rect (λ _, option _LayoutPlaceholders.ShapeElement) Some (λ _, None)
        (_LayoutPlaceholders.get 1 "none-found" sample.layout_shapes)
  = Some "Content 2".
Proof. reflexivity. Qed.

Example get_index_0_without_attribute :
  _LayoutPlaceholders.shape_name
  <$> sum_rect (λ _, option _LayoutPlaceholders.ShapeElement) Some (λ _, None)
        (_LayoutPlaceholders.get 0 "none-found" sample.layout_shapes)
  = Some "Title 1".
Proof. reflexivity. Qed.

End on_samples.

(** * Further properties of the code *)

(** ** More on the fill mutator *)
Section more_fill_properties.
Context `{!Imports}.
Implicit Types (self c : element) (l : list element) (t : QName).




Lemma delete_inserted {A} (k : nat) (x : A) (m : list A) :
  k ≤ length m → delete k (take k m ++ x :: drop k m) = m.
Proof.
  intros Hk. rewrite <- (length_take_le m k) at 1 by done.
  by rewrite delete_middle, take_drop.
Qed.

(** X2: [_add_solidFill] adds exactly one child: the reference it
    returns is the position of a new, empty [<a:solidFill>], and taking
    that child out again gives back the children as they were, in their
    order; the tag and attributes of the element stay. *)
Theorem add_solidFill_adds_one_child self :
  let call := CT_ShapeProperties._add_solidFill self in
  tag call.2 = tag self ∧ attrib call.2 = attrib self
  ∧ etree.getitem call.1 call.2 = Some (Node (ns.qn "a:solidFill") [] [])
  ∧ delete call.1 (children call.2) = children self.
Proof.
  unfold CT_ShapeProperties._add_solidFill.
  destruct (CT_ShapeProperties._first_successor_in _ self) as [k|] eqn:Hsucc;
    simpl.
  - apply first_successor_in_Some in Hsucc as (ts1 & tn & ts2 & _ & _ & Hk).
    apply find_lt in Hk. split_and!; [done..| |].
    + apply lookup_insert_middle. lia.
    + apply delete_inserted. lia.
  - split_and!; [done..| |].
    + unfold etree.getitem. simpl. by rewrite lookup_app_r, Nat.sub_diag.
    + by rewrite delete_middle, app_nil_r.
Qed.

Lemma drop_firsts_filter (P : element → Prop) `{!∀ c, Decision (P c)} ts l :
  (∀ c, tag c ∈ ts → ¬ P c) → filter P (drop_firsts ts l) = filter P l.
Proof.
  revert ts. induction l as [|c l IH]; intros ts Hts; simpl; [done|].
  case_decide as Hc.
  - rewrite filter_cons_False by auto. apply IH.
    intros x [_ ?]%list_elem_of_filter. auto.
  - by rewrite !filter_cons, IH.
Qed.

(** X3: the coercion touches fill elements only: the tag and the
    attributes of the properties element and its children that are no
    fill elements are after the call what they were before it, each in
    its place among the others. *)
Theorem get_or_change_to_solidFill_keeps_the_rest self :
  let self' := (CT_ShapeProperties.get_or_change_to_solidFill self).2 in
  tag self' = tag self ∧ attrib self' = attrib self
  ∧ filter (λ c, ¬ is_fill c) (children self')
    = filter (λ c, ¬ is_fill c) (children self).
Proof.
  simpl. destruct (CT_ShapeProperties.solidFill self) as [i|] eqn:Hsolid.
  - unfold CT_ShapeProperties.get_or_change_to_solidFill. by rewrite Hsolid.
  - destruct (coerce_without_solidFill self Hsolid)
      as (k & self' & -> & -> & _ & _).
    simpl. split_and!; [done..|].
    rewrite filter_app, filter_cons_False
      by (intros Hno; apply Hno; by apply is_fill_solidFill).
    rewrite <- filter_app, take_drop. apply drop_firsts_filter.
    intros c Hc Hno. apply Hno. by apply is_fill_other.
Qed.

Lemma drop_firsts_StronglySorted (R : relation element) ts l :
  StronglySorted R l → StronglySorted R (drop_firsts ts l).
Proof.
  intros Hl. revert ts. induction Hl as [|c l ? IH Hc]; intros ts; simpl.
  - constructor.
  - case_decide; [apply IH|]. constructor; [apply IH|].
    by apply drop_firsts_Forall.
Qed.

Lemma successor_rank_None c :
  tag c ∉ ns.qn <$> successor_tagnames → successor_rank c = None.
Proof.
  intros Hc. unfold successor_rank. apply fmap_None, list_find_None.
  apply Forall_forall. intros tagname Hin Htag. apply Hc. rewrite Htag.
  by apply list_elem_of_fmap_2.
Qed.

(** X4: the new solid fill goes where the schema wants it.  When the
    children of a properties element without solid fill come in schema
    order as far as [a:ln], [a:effectLst], [a:effectDag], [a:scene3d],
    [a:sp3d] and [a:extLst] go, no child before the solid fill the
    coercion returns is one of those six. *)
Theorem solidFill_precedes_successors self :
  Forall (λ c, tag c ≠ ns.qn "a:solidFill") (children self) →
  StronglySorted schema_order (children self) →
  let call := CT_ShapeProperties.get_or_change_to_solidFill self in
  Forall (λ c, successor_rank c = None) (take call.1 (children call.2)).
Proof.
  intros Hsolid%find_None Hsorted. simpl.
  destruct (coerce_without_solidFill self Hsolid)
    as (k & self' & Hcall & -> & _ & Hk).
  pose proof (coerce_without_solidFill_le _ _ _ Hsolid Hcall) as Hle.
  rewrite Hcall. simpl.
  set (kept := drop_firsts _ _) in *.
  rewrite take_app_le by by rewrite length_take_le.
  rewrite take_take, Nat.min_id.
  destruct Hk as [(ts1 & tn & ts2 & succ & Hts & Hpre & Hat & Htag & Hbefore)
                 |[Hnone _]].
  2:{ apply Forall_take. eapply Forall_impl; [exact Hnone|].
      intros c. apply successor_rank_None. }
  assert (StronglySorted schema_order kept) as Hkept
    by by apply drop_firsts_StronglySorted.
  assert (successor_rank succ = Some (length ts1)) as Hrank.
  { unfold successor_rank. rewrite Hts, list_find_app_r.
    - simpl. by rewrite decide_True.
    - apply list_find_None, Forall_forall. intros tagname Hin Heq.
      rewrite Forall_forall in Hpre.
      apply (Hpre succ); [by eapply list_elem_of_lookup_2|].
      rewrite Heq. by apply list_elem_of_fmap_2. }
  apply Forall_forall. intros c Hc.
  destruct (successor_rank c) as [r|] eqn:Hr; [exfalso|done].
  assert (r ≤ length ts1) as Hrle.
  { rewrite <- (take_drop k kept) in Hkept.
    eapply (StronglySorted_app_1_elem_of _ _ _ c succ Hkept); [done| |done..].
    apply list_elem_of_lookup. exists 0. by rewrite lookup_drop, Nat.add_0_r. }
  unfold successor_rank in Hr. apply fmap_Some in Hr as ([r' tagname] & Hfind & ->).
  apply list_find_Some in Hfind as (Hat' & Htag' & _). simpl in *.
  rewrite Hts in Hat'.
  destruct (decide (r' < length ts1)) as [Hlt|Hge].
  - rewrite lookup_app_l in Hat' by done.
    rewrite Forall_forall in Hpre. apply (Hpre c).
    + apply elem_of_take in Hc as (i & Hi & _).
      by eapply list_elem_of_lookup_2.
    + rewrite Htag'. apply list_elem_of_fmap_2. by eapply list_elem_of_lookup_2.
  - assert (r' = length ts1) as -> by lia.
    rewrite lookup_app_r, Nat.sub_diag in Hat' by done. injection Hat' as <-.
    rewrite Forall_forall in Hbefore. by apply (Hbefore c).
Qed.

(** X5: [_first_successor_in] goes by the order of the tag names, not by
    document order: it returns the first child bearing the first listed
    tag that any child bears, so no child bears a tag listed before that
    one and no child before the returned one bears its tag; it returns
    [None] only when no child bears any listed tag. *)
Theorem first_successor_in_found_or_absent tagnames self :
  match CT_ShapeProperties._first_successor_in tagnames self with
  | Some k =>
      ∃ ts1 tn ts2 c,
        tagnames = ts1 ++ tn :: ts2
        ∧ Forall (λ c, tag c ∉ ns.qn <$> ts1) (children self)
        ∧ etree.getitem k self = Some c
        ∧ tag c = ns.qn tn
        ∧ Forall (λ c, tag c ≠ ns.qn tn) (take k (children self))
  | None => Forall (λ c, tag c ∉ ns.qn <$> tagnames) (children self)
  end.
Proof.
  destruct (CT_ShapeProperties._first_successor_in tagnames self) as [k|]
    eqn:Hsucc.
  - apply first_successor_in_Some in Hsucc as (ts1 & tn & ts2 & -> & Hpre & Hk).
    apply find_Some in Hk as (c & Hat & Htag & Hbefore).
    by exists ts1, tn, ts2, c.
  - by apply first_successor_in_None.
Qed.

End more_fill_properties.

(** ** More on the geometry guide manager *)
Section more_guide_properties.
Context `{!Imports}.
Implicit Types (self c avLst : element) (l : list element).

Lemma getattr_raises name self e :
  objectify.getattr name self = Raise e → e = AttributeError.
Proof.
  unfold objectify.getattr. destruct (_ ≫= _); [done|]. by intros [= <-].
Qed.

Lemma getattr_Ok name self c :
  objectify.getattr name self = Ok c →
  c ∈ children self ∧ tag c = objectify.child_tag name self.
Proof.
  unfold objectify.getattr, objectify.lookup.
  destruct (etree.find _ self) as [i|] eqn:Hfind; simpl; [|done].
  apply find_getitem in Hfind as (c' & Hat & Htag). rewrite Hat.
  intros [= <-]. split; [|done]. by eapply list_elem_of_lookup_2.
Qed.

Lemma getattr_Raise name self e :
  objectify.getattr name self = Raise e →
  Forall (λ c, tag c ≠ objectify.child_tag name self) (children self).
Proof.
  unfold objectify.getattr, objectify.lookup.
  destruct (etree.find _ self) as [i|] eqn:Hfind; simpl.
  - apply find_getitem in Hfind as (c' & Hat & Htag). by rewrite Hat.
  - intros _. by apply find_None.
Qed.

(** X6: reading the guides never raises.  On any element the result is
    the children of its guide-list container that bear the [gd] tag of
    the container's namespace, in document order, and the empty sequence
    when there is no container. *)
Theorem gd_never_raises self :
  ∃ gd_elms,
    CT_PresetGeometry2D.gd self = Ok gd_elms
    ∧ match objectify.getattr "avLst" self with
      | Ok avLst =>
          gd_elms = filter (λ c, tag c = objectify.child_tag "gd" avLst)
                           (children avLst)
      | Raise _ => gd_elms = []
      end.
Proof.
  unfold CT_PresetGeometry2D.gd.
  destruct (objectify.getattr "avLst" self) as [avLst|e] eqn:HavLst; simpl.
  - destruct (objectify.getattr "gd" avLst) as [first_gd|e] eqn:Hgd; simpl.
    + eexists. split; [done|]. unfold objectify.iter.
      apply getattr_Ok in Hgd as [_ Htag]. by rewrite Htag.
    + rewrite (getattr_raises _ _ _ Hgd). eexists. split; [done|].
      apply getattr_Raise in Hgd. symmetry. apply filter_none.
      eapply Forall_impl; [exact Hgd|]. done.
  - rewrite (getattr_raises _ _ _ HavLst). by eexists.
Qed.

Lemma getattr_avLst self :
  namespace (tag self) = nsmap "a" →
  objectify.getattr "avLst" self
  = match etree.find (ns.qn "a:avLst") self ≫= λ i, etree.getitem i self with
    | Some avLst => Ok avLst
    | None => Raise AttributeError
    end.
Proof.
  intros Hns. unfold objectify.getattr, objectify.lookup.
  by rewrite (child_tag_drawing "avLst" self Hns).
Qed.

(** X7: rewriting the guides of a preset-geometry element touches the
    [<a:gd>] children of the guide-list container only: the tag and the
    [prst] attribute of the geometry stay, each child that is not the
    container stays at its position, and a container that was there
    keeps its tag, its attributes and its children other than guides. *)
Theorem rewrite_guides_keeps_the_rest guides self :
  tag self = ns.qn "a:prstGeom" →
  ∃ self',
    CT_PresetGeometry2D.rewrite_guides guides self = Ok self'
    ∧ tag self' = tag self
    ∧ CT_PresetGeometry2D.prst self' = CT_PresetGeometry2D.prst self
    ∧ (∀ j c, children self !! j = Some c → tag c ≠ ns.qn "a:avLst" →
              children self' !! j = Some c)
    ∧ (∀ avLst, objectify.getattr "avLst" self = Ok avLst →
         ∃ avLst', objectify.getattr "avLst" self' = Ok avLst'
                   ∧ tag avLst' = tag avLst ∧ attrib avLst' = attrib avLst
                   ∧ filter (λ c, tag c ≠ ns.qn "a:gd") (children avLst')
                     = filter (λ c, tag c ≠ ns.qn "a:gd") (children avLst)).
Proof.
  intros Htag.
  assert (namespace (tag self) = nsmap "a") as Hns by by rewrite Htag.
  exists (with_guides guides self). split; [by apply rewrite_guides_eq|].
  split; [apply with_guides_tag|].
  rewrite (getattr_avLst self Hns).
  rewrite (getattr_avLst (with_guides guides self))
    by by rewrite with_guides_tag.
  destruct self as [tg a l]. unfold with_guides, CT_PresetGeometry2D.prst.
  destruct (etree.find _ (Node tg a l)) as [i|] eqn:Hfind.
  - destruct (find_getitem _ _ _ Hfind) as (avLst & Hat & HtagA).
    unfold etree.getitem in Hat. simpl in Hat.
    rewrite at_child_node, find_alter, Hfind by done.
    unfold etree.getitem. simpl. rewrite list_lookup_alter_eq, Hat. simpl.
    split_and!; [done| |].
    + intros j c Hj Hc. rewrite list_lookup_alter_ne; [done|].
      intros ->. congruence.
    + intros ? [= <-]. eexists. split; [done|]. split_and!; [done..|].
      unfold guides_replaced. simpl.
      rewrite filter_app, filter_all, (filter_none _ (gd_of <$> guides));
        [apply app_nil_r|..].
      * apply Forall_forall. intros c (g & -> & _)%list_elem_of_fmap.
        by intros ?.
      * apply Forall_forall. by intros c [? _]%list_elem_of_filter.
  - simpl. split_and!; [done| |done].
    intros j c Hj _. by apply lookup_app_l_Some.
Qed.

End more_guide_properties.

(** ** More on the shape classifier *)
Section more_classifier_properties.
Context `{!Imports}.

(** X8: what reading [is_autoshape] on a shape gives.  With shape
    properties that hold no preset geometry it is [False], and the
    non-visual properties are not looked at.  With a preset geometry and
    a text-box flag that can be read it is the opposite of what reading
    [is_textbox] gives.  In the cases left, a shape without [spPr] or
    one with a geometry whose [nvSpPr] or [cNvSpPr] is missing, the
    getter raises AttributeError and the read falls back on the child of
    the shape named [is_autoshape]. *)
Theorem is_autoshape_by_is_textbox sp :
  let read_autoshape :=
    objectify.getproperty "is_autoshape" CT_Shape.is_autoshape sp in
  let read_textbox :=
    objectify.getproperty "is_textbox" CT_Shape.is_textbox sp in
  match objectify.getattr "spPr" sp with
  | Ok spPr =>
      match core.child spPr "a:prstGeom" with
      | None => read_autoshape = Ok (inl false)
      | Some _ =>
          match txBox_of sp with
          | Ok _ =>
              ∃ textbox, read_textbox = Ok (inl textbox)
                         ∧ read_autoshape = Ok (inl (negb textbox))
          | Raise _ => read_autoshape = objectify.fallback "is_autoshape" sp
          end
      end
  | Raise _ => read_autoshape = objectify.fallback "is_autoshape" sp
  end.
Proof.
  unfold objectify.getproperty, CT_Shape.is_autoshape, CT_Shape.is_textbox,
    txBox_of.
  destruct (objectify.getattr "spPr" sp) as [spPr|e1] eqn:HspPr; simpl.
  2:{ by rewrite (getattr_raises _ _ _ HspPr). }
  destruct (core.child spPr "a:prstGeom"); simpl; [|done].
  destruct (objectify.getattr "nvSpPr" sp) as [nvSpPr|e2] eqn:Hnv; simpl.
  2:{ by rewrite (getattr_raises _ _ _ Hnv). }
  destruct (objectify.getattr "cNvSpPr" nvSpPr) as [cNvSpPr|e3] eqn:Hc; simpl.
  2:{ by rewrite (getattr_raises _ _ _ Hc). }
  destruct (decide _); eauto.
Qed.

(** X9: a shape that [is_autoshape] accepts is no text box and has a
    preset geometry: [prstGeom] returns an [<a:prstGeom>] element and
    [prst] returns the [prst] attribute of that element. *)
Theorem autoshape_has_preset sp :
  CT_Shape.is_autoshape sp = Ok true →
  CT_Shape.is_textbox sp = Ok false
  ∧ ∃ prstGeom, CT_Shape.prstGeom sp = Ok (Some prstGeom)
                ∧ tag prstGeom = ns.qn "a:prstGeom"
                ∧ CT_Shape.prst sp = Ok (CT_PresetGeometry2D.prst prstGeom).
Proof.
  unfold CT_Shape.is_autoshape, CT_Shape.is_textbox, CT_Shape.prstGeom,
    CT_Shape.prst.
  destruct (objectify.getattr "spPr" sp) as [spPr|]; simpl; [|done].
  destruct (core.child spPr "a:prstGeom") as [prstGeom|] eqn:Hgeom;
    simpl; [|done].
  destruct (objectify.getattr "nvSpPr" sp) as [nvSpPr|]; simpl; [|done].
  destruct (objectify.getattr "cNvSpPr" nvSpPr) as [cNvSpPr|]; simpl; [|done].
  destruct (decide _); [done|]. intros _. split; [done|].
  exists prstGeom. split_and!; [done| |done].
  unfold core.child in Hgeom.
  destruct (etree.find _ spPr) as [i|] eqn:Hfind; simpl in Hgeom; [|done].
  apply find_getitem in Hfind as (c & Hat & Htag). congruence.
Qed.

End more_classifier_properties.

(** ** More on the shape builder *)
Section more_builder_properties.
Context `{!Imports}.

(** Rewrites the lookups in a written-out child list. *)
Ltac find_rw :=
  repeat (rewrite find_cons;
          first [ rewrite decide_True by reflexivity
                | rewrite decide_False by (simpl; discriminate) ]);
  rewrite ?find_nil.

Ltac find_child := find_rw; reflexivity.

Ltac getattr_child := eapply getattr_node; [find_child | reflexivity].

Lemma new_autoshape_sp_eq id_ name prst left top width height :
  parse_xml_bytes
    (CT_Shape._autoshape_sp_tmpl id_ name left top width height prst)
  = Ok (CT_Shape._autoshape_sp_tree id_ name left top width height prst) →
  CT_Shape.new_autoshape_sp id_ name prst left top width height
  = Ok (CT_Shape._autoshape_sp_tree id_ name left top width height prst).
Proof. intros Hparse. unfold CT_Shape.new_autoshape_sp. by rewrite Hparse. Qed.

Lemma new_textbox_sp_eq id_ name left top width height :
  parse_xml_bytes (CT_Shape._textbox_sp_tmpl id_ name left top width height)
  = Ok (CT_Shape._textbox_sp_tree id_ name left top width height) →
  CT_Shape.new_textbox_sp id_ name left top width height
  = Ok (CT_Shape._textbox_sp_tree id_ name left top width height).
Proof. intros Hparse. unfold CT_Shape.new_textbox_sp. by rewrite Hparse. Qed.

(** X10: when the parser reads the auto-shape template as written,
    [new_autoshape_sp] returns a shape that [is_autoshape] accepts and
    [is_textbox] rejects, whose preset name is the [prst] argument and
    whose geometry has no guides yet. *)
Theorem new_autoshape_sp_is_autoshape id_ name prst left top width height :
  parse_xml_bytes
    (CT_Shape._autoshape_sp_tmpl id_ name left top width height prst)
  = Ok (CT_Shape._autoshape_sp_tree id_ name left top width height prst) →
  ∃ sp,
    CT_Shape.new_autoshape_sp id_ name prst left top width height = Ok sp
    ∧ CT_Shape.is_autoshape sp = Ok true
    ∧ CT_Shape.is_textbox sp = Ok false
    ∧ CT_Shape.prst sp = Ok (Some prst)
    ∧ ∃ prstGeom, CT_Shape.prstGeom sp = Ok (Some prstGeom)
                  ∧ CT_PresetGeometry2D.gd prstGeom = Ok [].
Proof.
  intros Hparse. eexists. split; [by apply new_autoshape_sp_eq|].
  assert (objectify.getattr "spPr"
            (CT_Shape._autoshape_sp_tree id_ name left top width height prst)
          = Ok (Node (ns.qn "p:spPr") []
                  [ Node (ns.qn "a:xfrm") []
                      [ Node (ns.qn "a:off")
                             [("x", pretty left); ("y", pretty top)] [];
                        Node (ns.qn "a:ext")
                             [("cx", pretty width); ("cy", pretty height)] [] ];
                    Node (ns.qn "a:prstGeom") [("prst", prst)]
                      [ Node (ns.qn "a:avLst") [] [] ] ])) as HspPr
    by getattr_child.
  assert (txBox_of
            (CT_Shape._autoshape_sp_tree id_ name left top width height prst)
          = Ok None) as Hflag.
  { unfold txBox_of, CT_Shape._autoshape_sp_tree. cbn [mbind result_bind].
    eapply bind_Ok; [getattr_child|]. eapply bind_Ok; [getattr_child|]. done. }
  assert (core.child
            (Node (ns.qn "p:spPr") []
               [ Node (ns.qn "a:xfrm") []
                   [ Node (ns.qn "a:off")
                          [("x", pretty left); ("y", pretty top)] [];
                     Node (ns.qn "a:ext")
                          [("cx", pretty width); ("cy", pretty height)] [] ];
                 Node (ns.qn "a:prstGeom") [("prst", prst)]
                   [ Node (ns.qn "a:avLst") [] [] ] ]) "a:prstGeom"
          = Some (Node (ns.qn "a:prstGeom") [("prst", prst)]
                    [ Node (ns.qn "a:avLst") [] [] ])) as Hgeom.
  { unfold core.child. find_rw. done. }
  destruct (classify _ _ _ HspPr Hflag) as [Htext Hauto].
  rewrite Hgeom in Hauto.
  split_and!; [done|done| |].
  - unfold CT_Shape.prst. rewrite HspPr. simpl. by rewrite Hgeom.
  - eexists. unfold CT_Shape.prstGeom. rewrite HspPr. simpl. rewrite Hgeom.
    split; [done|].
    unfold CT_PresetGeometry2D.gd.
    assert (objectify.getattr "avLst"
              (Node (ns.qn "a:prstGeom") [("prst", prst)]
                 [Node (ns.qn "a:avLst") [] []])
            = Ok (Node (ns.qn "a:avLst") [] [])) as -> by getattr_child.
    done.
Qed.

(** X11: when the parser reads the text-box template as written,
    [new_textbox_sp] returns a shape that [is_textbox] accepts and
    [is_autoshape] rejects, with the preset name [rect]; coercing the
    fill of its properties replaces the [<a:noFill/>] of the template by
    an empty [<a:solidFill>] in the same, last place. *)
Theorem new_textbox_sp_is_textbox id_ name left top width height :
  parse_xml_bytes (CT_Shape._textbox_sp_tmpl id_ name left top width height)
  = Ok (CT_Shape._textbox_sp_tree id_ name left top width height) →
  ∃ sp spPr,
    CT_Shape.new_textbox_sp id_ name left top width height = Ok sp
    ∧ CT_Shape.is_textbox sp = Ok true
    ∧ CT_Shape.is_autoshape sp = Ok false
    ∧ CT_Shape.prst sp = Ok (Some "rect")
    ∧ objectify.getattr "spPr" sp = Ok spPr
    ∧ (CT_ShapeProperties.get_or_change_to_solidFill spPr).2
      = Node (ns.qn "p:spPr") []
          [ Node (ns.qn "a:xfrm") []
              [ Node (ns.qn "a:off") [("x", pretty left); ("y", pretty top)] [];
                Node (ns.qn "a:ext")
                     [("cx", pretty width); ("cy", pretty height)] [] ];
            Node (ns.qn "a:prstGeom") [("prst", "rect")]
              [ Node (ns.qn "a:avLst") [] [] ];
            Node (ns.qn "a:solidFill") [] [] ].
Proof.
  intros Hparse. eexists _, _. split; [by apply new_textbox_sp_eq|].
  assert (objectify.getattr "spPr"
            (CT_Shape._textbox_sp_tree id_ name left top width height)
          = Ok (Node (ns.qn "p:spPr") []
                  [ Node (ns.qn "a:xfrm") []
                      [ Node (ns.qn "a:off")
                             [("x", pretty left); ("y", pretty top)] [];
                        Node (ns.qn "a:ext")
                             [("cx", pretty width); ("cy", pretty height)] [] ];
                    Node (ns.qn "a:prstGeom") [("prst", "rect")]
                      [ Node (ns.qn "a:avLst") [] [] ];
                    Node (ns.qn "a:noFill") [] [] ])) as HspPr
    by getattr_child.
  assert (txBox_of (CT_Shape._textbox_sp_tree id_ name left top width height)
          = Ok (Some "1")) as Hflag.
  { unfold txBox_of, CT_Shape._textbox_sp_tree. cbn [mbind result_bind].
    eapply bind_Ok; [getattr_child|]. eapply bind_Ok; [getattr_child|]. done. }
  destruct (classify _ _ _ HspPr Hflag) as [Htext Hauto].
  split_and!; [done| | |exact HspPr|].
  - rewrite Hauto. by rewrite andb_false_r.
  - unfold CT_Shape.prst. rewrite HspPr. simpl.
    unfold core.child. find_rw. done.
  - unfold CT_ShapeProperties.get_or_change_to_solidFill,
      CT_ShapeProperties.solidFill.
    unfold CT_ShapeProperties._add_solidFill.
    repeat (progress
              (find_rw; try unfold etree.remove, etree.append;
               cbn [fmap option_fmap option_map
                    CT_ShapeProperties._remove_if_present
                    CT_ShapeProperties._first_successor_in
                    delete list_delete tag attrib children app snd])).
    done.
Qed.

Lemma getattr_fragment_spPr id_ name ph_type orient sz idx :
  objectify.getattr "spPr"
    (placeholder_fragment id_ name ph_type orient sz idx)
  = Ok (Node (ns.qn "p:spPr") [] []).
Proof. unfold placeholder_fragment. cbn [app]. getattr_child. Qed.

(** X12: when the parser reads the placeholder template as written,
    the shape [new_placeholder_sp] returns is neither an auto shape nor
    a text box, whatever the placeholder type, and has no preset
    geometry: [prst] and [prstGeom] are both [None]. *)
Theorem new_placeholder_sp_is_neither id_ name ph_type orient sz idx :
  parse_xml_bytes (CT_Shape._ph_sp_tmpl id_ name)
  = Ok (CT_Shape._ph_sp_tree id_ name) →
  ∃ sp,
    CT_Shape.new_placeholder_sp id_ name ph_type orient sz idx = Ok sp
    ∧ CT_Shape.is_autoshape sp = Ok false
    ∧ CT_Shape.is_textbox sp = Ok false
    ∧ CT_Shape.prst sp = Ok None
    ∧ CT_Shape.prstGeom sp = Ok None.
Proof.
  intros Hparse. eexists. split; [by apply new_placeholder_sp_eq|].
  pose proof (getattr_fragment_spPr id_ name ph_type orient sz idx) as HspPr.
  assert (txBox_of (placeholder_fragment id_ name ph_type orient sz idx)
          = Ok None) as Hflag.
  { unfold txBox_of, placeholder_fragment. cbn [mbind result_bind app].
    eapply bind_Ok; [getattr_child|]. eapply bind_Ok; [getattr_child|]. done. }
  destruct (classify _ _ _ HspPr Hflag) as [Htext Hauto].
  split_and!; [done|done|..].
  - unfold CT_Shape.prst. by rewrite HspPr.
  - unfold CT_Shape.prstGeom. by rewrite HspPr.
Qed.

End more_builder_properties.

(** ** When a getter raises *)
Section error_properties.
Context `{!Imports}.
Implicit Types (self sp c : element).

Lemma getattr_absent name self :
  Forall (λ c, tag c ≠ objectify.child_tag name self) (children self) →
  objectify.getattr name self = Raise AttributeError.
Proof.
  intros Hno%find_None. unfold objectify.getattr, objectify.lookup.
  by rewrite Hno.
Qed.

(** A getter that returns decides the read. *)
Lemma getproperty_Ok {A} name (fget : element → result A) self value :
  fget self = Ok value →
  objectify.getproperty name fget self = Ok (inl value).
Proof. unfold objectify.getproperty. by intros ->. Qed.

(** X13: on a shape without [spPr] child of its own namespace the
    getters of [is_autoshape], [prst] and [prstGeom] raise
    AttributeError, so that reading any of the three gives what the
    child lookup of objectify gives for that name: the child of the
    shape named [is_autoshape] ([prst], [prstGeom]) when it has one, and
    AttributeError when it has none. *)
Theorem shape_without_spPr_falls_through sp :
  Forall (λ c, tag c ≠ objectify.child_tag "spPr" sp) (children sp) →
  objectify.getproperty "is_autoshape" CT_Shape.is_autoshape sp
  = objectify.fallback "is_autoshape" sp
  ∧ objectify.getproperty "prst" CT_Shape.prst sp
    = objectify.fallback "prst" sp
  ∧ objectify.getproperty "prstGeom" CT_Shape.prstGeom sp
    = objectify.fallback "prstGeom" sp.
Proof.
  intros Hno%getattr_absent.
  unfold objectify.getproperty, CT_Shape.is_autoshape, CT_Shape.prst,
    CT_Shape.prstGeom.
  by rewrite Hno.
Qed.

(** X14: on a shape without [nvSpPr] child, or whose [nvSpPr] has no
    [cNvSpPr] child, the getter of [is_textbox] raises AttributeError,
    so that reading [is_textbox] gives the child of the shape named
    [is_textbox] when it has one, and AttributeError when it has
    none. *)
Theorem is_textbox_without_cNvSpPr_falls_through sp :
  match objectify.getattr "nvSpPr" sp with
  | Ok nvSpPr =>
      Forall (λ c, tag c ≠ objectify.child_tag "cNvSpPr" nvSpPr)
             (children nvSpPr)
  | Raise _ => True
  end →
  objectify.getproperty "is_textbox" CT_Shape.is_textbox sp
  = objectify.fallback "is_textbox" sp.
Proof.
  unfold objectify.getproperty, CT_Shape.is_textbox.
  destruct (objectify.getattr "nvSpPr" sp) as [nvSpPr|e] eqn:Hnv; simpl.
  - intros Hno%getattr_absent. by rewrite Hno.
  - intros _. by rewrite (getattr_raises _ _ _ Hnv).
Qed.

(** X15: [rewrite_guides] raises in one case only, and then it raises
    [AttributeError]: the element is outside the drawing namespace and
    has no [avLst] child of its own namespace, so that the container the
    method has just added in the drawing namespace is not found by the
    lookup [self.avLst].  In every other case the call succeeds. *)
Theorem rewrite_guides_raises guides self e :
  CT_PresetGeometry2D.rewrite_guides guides self = Raise e
  ↔ e = AttributeError
    ∧ namespace (tag self) ≠ nsmap "a"
    ∧ Forall (λ c, tag c ≠ objectify.child_tag "avLst" self) (children self).
Proof.
  destruct (decide (namespace (tag self) = nsmap "a")) as [Hns|Hns].
  { rewrite rewrite_guides_eq by done. split; [done|]. by intros (_ & ? & _). }
  unfold CT_PresetGeometry2D.rewrite_guides.
  unfold objectify.lookup at 1.
  destruct (etree.find (objectify.child_tag "avLst" self) self) as [i|]
    eqn:Hfind.
  - destruct (find_getitem _ _ _ Hfind) as (avLst & Hat & Htag).
    unfold objectify.getref, objectify.getattr, objectify.lookup.
    rewrite Hfind. simpl. rewrite Hat. simpl.
    split.
    + destruct (objectify.hasattr "gd" avLst); simpl; [|done].
      by rewrite decide_True.
    + intros (_ & _ & Hno%find_None). congruence.
  - destruct self as [tg a l]. unfold core.SubElement. simpl.
    assert (etree.find (objectify.child_tag "avLst" (Node tg a l))
              (etree.append (core.Element "a:avLst") (Node tg a l)) = None)
      as Hnew.
    { apply find_None. apply find_None in Hfind. simpl in *.
      apply Forall_app. split; [done|]. repeat constructor.
      simpl. intros Heq. apply Hns. simpl.
      by apply (f_equal namespace) in Heq. }
    unfold objectify.getref, objectify.getattr, objectify.lookup.
    change (objectify.child_tag "avLst"
              (etree.append (core.Element "a:avLst") (Node tg a l)))
      with (objectify.child_tag "avLst" (Node tg a l)).
    rewrite Hnew. simpl. split.
    + intros [= <-]. split_and!; [done..|]. by apply find_None in Hfind.
    + by intros (-> & _).
Qed.

End error_properties.

(** ** The further properties on the sample documents *)
Section more_on_samples.
#[local] Existing Instance ooxml.


Lemma solidFill_precedes_successors_witness :
  Forall (λ c, tag c ≠ ns.qn "a:solidFill")
         (children sample.spPr_in_schema_order)
  ∧ StronglySorted schema_order (children sample.spPr_in_schema_order)
  ∧ Forall (λ c, successor_rank c = None)
      (take (CT_ShapeProperties.get_or_change_to_solidFill
               sample.spPr_in_schema_order).1
            (children (CT_ShapeProperties.get_or_change_to_solidFill
                         sample.spPr_in_schema_order).2)).
Proof.
  assert (Forall (λ c, tag c ≠ ns.qn "a:solidFill")
                 (children sample.spPr_in_schema_order))
    as Hnone by (simpl; repeat constructor; vm_compute; discriminate).
  assert (StronglySorted schema_order (children sample.spPr_in_schema_order))
    as Hsorted.
  { simpl. repeat constructor.
    all: intros r1 r2 Hr1 Hr2; vm_compute in Hr1, Hr2; simplify_eq; lia. }
  split; [exact Hnone|]. split; [exact Hsorted|].
  exact (solidFill_precedes_successors sample.spPr_in_schema_order
           Hnone Hsorted).
Defined.

Example coerce_in_schema_order :
  CT_ShapeProperties.get_or_change_to_solidFill sample.spPr_in_schema_order
  = (2, sample.p "spPr" []
          [ sample.a "xfrm" [] []; sample.a "prstGeom" [("prst", "rect")] [];
            sample.a "solidFill" [] []; sample.a "ln" [] [];
            sample.a "extLst" [] [] ]).
Proof. reflexivity. Qed.

Lemma rewrite_guides_keeps_the_rest_witness :
  tag sample.prstGeom_roundRect = ns.qn "a:prstGeom"
  ∧ ∃ self',
      CT_PresetGeometry2D.rewrite_guides [("adj", 100%Z)]
        sample.prstGeom_roundRect = Ok self'
      ∧ CT_PresetGeometry2D.prst self' = Some "roundRect".
Proof.
  assert (tag sample.prstGeom_roundRect = ns.qn "a:prstGeom")
    as Htag by reflexivity.
  split; [exact Htag|].
  destruct (rewrite_guides_keeps_the_rest [("adj", 100%Z)]
              sample.prstGeom_roundRect Htag)
    as (self' & Hcall & _ & Hprst & _).
  exists self'. exact (conj Hcall Hprst).
Defined.

Lemma autoshape_has_preset_witness :
  CT_Shape.is_autoshape sample.sp_autoshape = Ok true
  ∧ CT_Shape.is_textbox sample.sp_autoshape = Ok false.
Proof.
  assert (CT_Shape.is_autoshape sample.sp_autoshape = Ok true)
    as Hauto by reflexivity.
  split; [exact Hauto|].
  exact (proj1 (autoshape_has_preset sample.sp_autoshape Hauto)).
Defined.

Lemma new_autoshape_sp_is_autoshape_witness :
  parse_xml_bytes
    (CT_Shape._autoshape_sp_tmpl 3 "Rounded Rectangle 2"
       10%Z 20%Z 300%Z 400%Z "roundRect")
  = Ok (CT_Shape._autoshape_sp_tree 3 "Rounded Rectangle 2"
          10%Z 20%Z 300%Z 400%Z "roundRect")
  ∧ ∃ sp, CT_Shape.new_autoshape_sp 3 "Rounded Rectangle 2" "roundRect"
            10%Z 20%Z 300%Z 400%Z = Ok sp
          ∧ CT_Shape.is_autoshape sp = Ok true.
Proof.
  assert (parse_xml_bytes
            (CT_Shape._autoshape_sp_tmpl 3 "Rounded Rectangle 2"
               10%Z 20%Z 300%Z 400%Z "roundRect")
          = Ok (CT_Shape._autoshape_sp_tree 3 "Rounded Rectangle 2"
                  10%Z 20%Z 300%Z 400%Z "roundRect")) as Hparse
    by (vm_compute; reflexivity).
  split; [exact Hparse|].
  destruct (new_autoshape_sp_is_autoshape 3 "Rounded Rectangle 2" "roundRect"
              10%Z 20%Z 300%Z 400%Z Hparse)
    as (sp & Hnew & Hauto & _).
  exists sp. exact (conj Hnew Hauto).
Defined.

Lemma new_textbox_sp_is_textbox_witness :
  parse_xml_bytes
    (CT_Shape._textbox_sp_tmpl 4 "TextBox 3" 10%Z 20%Z 300%Z 400%Z)
  = Ok (CT_Shape._textbox_sp_tree 4 "TextBox 3" 10%Z 20%Z 300%Z 400%Z)
  ∧ ∃ sp, CT_Shape.new_textbox_sp 4 "TextBox 3" 10%Z 20%Z 300%Z 400%Z = Ok sp
          ∧ CT_Shape.is_textbox sp = Ok true.
Proof.
  assert (parse_xml_bytes
            (CT_Shape._textbox_sp_tmpl 4 "TextBox 3" 10%Z 20%Z 300%Z 400%Z)
          = Ok (CT_Shape._textbox_sp_tree 4 "TextBox 3"
                  10%Z 20%Z 300%Z 400%Z)) as Hparse
    by (vm_compute; reflexivity).
  split; [exact Hparse|].
  destruct (new_textbox_sp_is_textbox 4 "TextBox 3" 10%Z 20%Z 300%Z 400%Z
              Hparse)
    as (sp & spPr & Hnew & Htext & _).
  exists sp. exact (conj Hnew Htext).
Defined.

Lemma new_placeholder_sp_is_neither_witness :
  parse_xml_bytes (CT_Shape._ph_sp_tmpl 2 "Title 1")
  = Ok (CT_Shape._ph_sp_tree 2 "Title 1")
  ∧ ∃ sp, CT_Shape.new_placeholder_sp 2 "Title 1"
            PH_TYPE_TITLE PH_ORIENT_HORZ PH_SZ_FULL 0 = Ok sp
          ∧ CT_Shape.is_autoshape sp = Ok false
          ∧ CT_Shape.is_textbox sp = Ok false.
Proof.
  assert (parse_xml_bytes (CT_Shape._ph_sp_tmpl 2 "Title 1")
          = Ok (CT_Shape._ph_sp_tree 2 "Title 1")) as Hparse
    by (vm_compute; reflexivity).
  split; [exact Hparse|].
  destruct (new_placeholder_sp_is_neither 2 "Title 1"
              PH_TYPE_TITLE PH_ORIENT_HORZ PH_SZ_FULL 0 Hparse)
    as (sp & Hnew & Hauto & Htext & _).
  exists sp. exact (conj Hnew (conj Hauto Htext)).
Defined.

Lemma shape_without_spPr_falls_through_witness :
  Forall (λ c, tag c ≠ objectify.child_tag "spPr" sample.sp_without_spPr)
         (children sample.sp_without_spPr)
  ∧ objectify.getproperty "is_autoshape" CT_Shape.is_autoshape
      sample.sp_without_spPr
    = Raise AttributeError.
Proof.
  assert (Forall
            (λ c, tag c ≠ objectify.child_tag "spPr" sample.sp_without_spPr)
            (children sample.sp_without_spPr))
    as Hnone by (simpl; repeat constructor; vm_compute; discriminate).
  split; [exact Hnone|].
  exact (proj1 (shape_without_spPr_falls_through sample.sp_without_spPr
                  Hnone)).
Defined.

Lemma is_textbox_without_cNvSpPr_falls_through_witness :
  match objectify.getattr "nvSpPr" sample.sp_without_cNvSpPr with
  | Ok nvSpPr =>
      Forall (λ c, tag c ≠ objectify.child_tag "cNvSpPr" nvSpPr)
             (children nvSpPr)
  | Raise _ => True
  end
  ∧ objectify.getproperty "is_textbox" CT_Shape.is_textbox
      sample.sp_without_cNvSpPr
    = Raise AttributeError.
Proof.
  assert (match objectify.getattr "nvSpPr" sample.sp_without_cNvSpPr with
          | Ok nvSpPr =>
              Forall (λ c, tag c ≠ objectify.child_tag "cNvSpPr" nvSpPr)
                     (children nvSpPr)
          | Raise _ => True
          end)
    as Hnone by (simpl; repeat constructor; vm_compute; discriminate).
  split; [exact Hnone|].
  exact (is_textbox_without_cNvSpPr_falls_through sample.sp_without_cNvSpPr
           Hnone).
Defined.

(** A child named after a property is what the read gives when the
    getter cannot find what it needs. *)
Example read_is_autoshape_shadowed :
  objectify.getproperty "is_autoshape" CT_Shape.is_autoshape
    sample.sp_shadowed
  = Ok (inr (sample.p "is_autoshape" [] [])).
Proof. reflexivity. Qed.

Example read_is_textbox_shadowed :
  objectify.getproperty "is_textbox" CT_Shape.is_textbox sample.sp_shadowed
  = Ok (inr (sample.p "is_textbox" [] [])).
Proof. reflexivity. Qed.

Example read_prstGeom_shadowed :
  objectify.getproperty "prstGeom" CT_Shape.prstGeom sample.sp_shadowed
  = Raise AttributeError.
Proof. reflexivity. Qed.

(** The shape properties alone decide when they hold no geometry. *)
Example read_is_autoshape_without_nvSpPr :
  objectify.getproperty "is_autoshape" CT_Shape.is_autoshape
    (sample.p "sp" [] [sample.p "spPr" [] []])
  = Ok (inl false).
Proof. reflexivity. Qed.

(** The methods of the two namespaces do not mix: the guides of a
    [<p:spPr>] cannot be rewritten. *)
Example rewrite_guides_on_spPr :
  CT_PresetGeometry2D.rewrite_guides [("adj", 100%Z)] sample.spPr_gradFill_ln
  = Raise AttributeError.
Proof. reflexivity. Qed.

(** The successor is chosen by the order of the tag names: with
    [<a:extLst>] before [<a:ln>] in the document, [a:ln] still wins. *)
Example first_successor_by_tag_order :
  CT_ShapeProperties._first_successor_in ["a:ln"; "a:extLst"]
    (sample.p "spPr" [] [sample.a "extLst" [] []; sample.a "ln" [] []])
  = Some 1.
Proof. reflexivity. Qed.

Example textbox_sp :
  CT_Shape.new_textbox_sp 4 "TextBox 3" 10%Z 20%Z 300%Z 400%Z
  = Ok (sample.p "sp" []
          [ sample.p "nvSpPr" []
              [ sample.p "cNvPr" [("id", "4"); ("name", "TextBox 3")] [];
                sample.p "cNvSpPr" [("txBox", "1")] [];
                sample.p "nvPr" [] [] ];
            sample.p "spPr" []
              [ sample.a "xfrm" []
                  [ sample.a "off" [("x", "10"); ("y", "20")] [];
                    sample.a "ext" [("cx", "300"); ("cy", "400")] [] ];
                sample.a "prstGeom" [("prst", "rect")]
                  [sample.a "avLst" [] []];
                sample.a "noFill" [] [] ];
            sample.p "txBody" []
              [ sample.a "bodyPr" [("wrap", "none")]
                  [sample.a "spAutoFit" [] []];
                sample.a "lstStyle" [] [];
                sample.a "p" [] [] ] ]).
Proof. vm_compute. reflexivity. Qed.

End more_on_samples.
